(** * Chord annotator (src/app.py): tokenizer, line splitting and the
      layout/render engine [render_chorded_lyrics] and the chord form.

    Python [str] values are modelled as lists of Unicode code points
    ([list N]).  Pixel heights and integer configuration values are [Z];
    horizontal text extents returned by Pillow's [textlength] are dyadic
    rationals (multiples of 1/64 px), modelled exactly in [Q]. *)

From Stdlib Require Import QArith Qround ZArith NArith List Lia String Ascii.
From Stdlib Require DecimalNat.
From stdpp Require Import base gmap list.

Open Scope Z_scope.

Abbreviation str := (list N).

(* ------------------------------------------------------------------ *)
(** ** Python character classes *)

(** [Py_UNICODE_ISSPACE]: the code points for which [str.isspace] holds
    and which the regular expression class [\s] matches (str patterns). *)
Definition py_isspace (c : N) : bool :=
  ((9 <=? c) && (c <=? 13))%N || ((28 <=? c) && (c <=? 32))%N
  || (c =? 133)%N || (c =? 160)%N || (c =? 5760)%N
  || ((8192 <=? c) && (c <=? 8202))%N
  || (c =? 8232)%N || (c =? 8233)%N || (c =? 8239)%N || (c =? 8287)%N
  || (c =? 12288)%N.

(** [Py_UNICODE_ISLINEBREAK]: the line boundaries of [str.splitlines]. *)
Definition py_islinebreak (c : N) : bool :=
  ((10 <=? c) && (c <=? 13))%N || ((28 <=? c) && (c <=? 30))%N
  || (c =? 133)%N || (c =? 8232)%N || (c =? 8233)%N.

(** [str.isspace()]: true iff the string is non-empty and all of its
    characters are whitespace. *)
Definition py_str_isspace (s : str) : bool :=
  match s with
  | [] => false
  | _ => forallb py_isspace s
  end.

(** ASCII text as code points, for concrete inputs. *)
Definition of_string (s : string) : str :=
  map (fun a => N_of_ascii a) (list_ascii_of_string s).

(* ------------------------------------------------------------------ *)
(** ** [tokenize_line]: [re.findall(r"\S+|\s+", line)] *)

(** Greedy [p+]-style run: the longest prefix whose characters satisfy [p]. *)
Fixpoint span_run (p : N -> bool) (s : str) : str * str :=
  match s with
  | [] => ([], [])
  | c :: r =>
      if p c then let '(a, b) := span_run p r in (c :: a, b) else ([], s)
  end.

(** One match attempt of [\S+|\s+] anchored at the start of [s]:
    the first alternative [\S+] is tried first, then [\s+]. *)
Definition match_token (s : str) : option (str * str) :=
  let '(a, r) := span_run (fun c => negb (py_isspace c)) s in
  match a with
  | _ :: _ => Some (a, r)
  | [] =>
      let '(b, r') := span_run py_isspace s in
      match b with
      | _ :: _ => Some (b, r')
      | [] => None
      end
  end.

(** [re.findall]: scan left to right; after a match continue after it,
    where no match starts, advance by one character.  [fuel] bounds the
    number of scan steps. *)
Fixpoint findall_fuel (fuel : nat) (s : str) : list str :=
  match fuel with
  | O => []
  | S f =>
      match s with
      | [] => []
      | _ :: r =>
          match match_token s with
          | Some (tok, rest) => tok :: findall_fuel f rest
          | None => findall_fuel f r
          end
      end
  end.

Definition tokenize_line (line : str) : list str :=
  findall_fuel (S (length line)) line.

(** A token of class [b]: non-empty, every character has [py_isspace = b]. *)
Definition uniform (b : bool) (tok : str) : Prop :=
  tok <> [] /\ Forall (fun c => py_isspace c = b) tok.

(* ------------------------------------------------------------------ *)
(** ** [lyrics.splitlines()] *)

(** Skip the line break at the head of [rest], reading CR LF as one break. *)
Definition skip_break (rest : str) : str :=
  match rest with
  | [] => []
  | c :: r =>
      if (c =? 13)%N then
        match r with
        | d :: r' => if (d =? 10)%N then r' else r
        | [] => r
        end
      else r
  end.

(** CPython's [splitlines] loop (keepends = False): while characters
    remain, take the longest prefix free of line breaks as the next line,
    then skip one line break. *)
Fixpoint splitlines_fuel (fuel : nat) (s : str) : list str :=
  match fuel with
  | O => []
  | S f =>
      match s with
      | [] => []
      | _ =>
          let '(line, rest) := span_run (fun c => negb (py_islinebreak c)) s in
          line :: splitlines_fuel f (skip_break rest)
      end
  end.

Definition splitlines (s : str) : list str :=
  splitlines_fuel (S (length s)) s.

(** Vocabulary for statements about line breaks: whether [s] ends in a
    line break, [s] with its trailing line break (CR LF counts as one)
    removed, and a single line break. *)
Definition ends_with_linebreak (s : str) : bool :=
  match last s with
  | Some c => py_islinebreak c
  | None => false
  end.

Definition strip_line_break (s : str) : str :=
  match rev s with
  | 10%N :: 13%N :: r => rev r
  | _ :: r => rev r
  | [] => []
  end.

Definition line_break_seq (brk : str) : bool :=
  match brk with
  | [c] => py_islinebreak c
  | [c; d] => (c =? 13)%N && (d =? 10)%N
  | _ => false
  end.

(* ------------------------------------------------------------------ *)
(** ** Pillow: fonts, [textlength], canvas *)

(** A loaded font, seen through the two queries the code makes of it:
    [font.getbbox(text)] (left, top, right, bottom) and the advance
    width [font.getlength(text)]. *)
Record Font := {
  getbbox : str -> Z * Z * Z * Z;
  getlength : str -> Q
}.

(** [textheight(font)] (lines 35-37). *)
Definition textheight (font : Font) : Z :=
  let '(_, top, _, bottom) := getbbox font (of_string "Ag") in bottom - top.

(** Pillow's limits: [ImageFont.MAX_STRING_LENGTH], [Image.MAX_IMAGE_PIXELS]
    and the largest C [int], the type of an image's width and height. *)
Definition MAX_STRING_LENGTH : Z := 1000000.
Definition MAX_IMAGE_PIXELS : Z := 89478485.
Definition INT_MAX : Z := 2147483647.

(** [ImageFont._string_length_check], run by [getlength] and [getmask2]:
    [ValueError] on text longer than [MAX_STRING_LENGTH]. *)
Definition string_length_ok (text : str) : bool :=
  Z.of_nat (length text) <=? MAX_STRING_LENGTH.

(** [ImageDraw.textlength]: raises [ValueError] on multiline text
    (text containing a line feed) and, in [font.getlength], on text longer
    than [MAX_STRING_LENGTH]; otherwise the font's advance width. *)
Definition textlength (text : str) (font : Font) : option Q :=
  if existsb (N.eqb 10) text then None
  else if string_length_ok text then Some (getlength font text) else None.

(** [math.ceil(math.modf(x)[0])]: [draw.text] passes the fractional part
    of [x] to [getmask2], which widens the mask by its ceiling: one column
    when [x] is positive and not an integer, none otherwise. *)
Definition ceil_frac (x : Q) : Z :=
  if Qle_bool x 0 then 0 else Qceiling x - Qfloor x.

(** The mask [getmask2] renders a single-line [text] into has the size of
    the text's bounding box ([font.getbbox(text)]), widened by [ceil_frac x];
    [Image._decompression_bomb_check] raises [DecompressionBombError] when
    [max(1, w) * max(1, h)] exceeds [2 * MAX_IMAGE_PIXELS]. *)
Definition mask_fits (font : Font) (x : Q) (text : str) : bool :=
  let '(l, t, r, b) := getbbox font text in
  Z.max 1 (r - l + ceil_frac x) * Z.max 1 (b - t)
    <=? 2 * MAX_IMAGE_PIXELS.

(** What [draw.text((x, y), text, font=font)] checks of a single-line text. *)
Definition text_fits (font : Font) (x : Q) (text : str) : bool :=
  string_length_ok text && mask_fits font x text.

(** [ImageFont.truetype(file, size)]: the font file and size requested. *)
Record FontRequest := { font_file : string; font_size : Z }.

(** One [draw.text((x, y), text, fill="black", font=font)] call. *)
Record DrawOp := DrawText { op_x : Q; op_y : Q; op_text : str; op_font : Font }.

(** [draw.text] on a single-line text (every text the code draws has no
    line feed by then): [ValueError] or [DecompressionBombError] unless
    [text_fits], otherwise the text is drawn. *)
Definition draw_text (x y : Q) (text : str) (font : Font) : option DrawOp :=
  if text_fits font x text then Some (DrawText x y text font) else None.

(** An RGB image on a white background and the text drawn on it, in order. *)
Record Canvas := { cv_width : Z; cv_height : Z; cv_ops : list DrawOp }.

(** [Image.new("RGB", (w, h), "white")]: [ValueError] on a negative size
    ([_check_size]), [OverflowError] on a size that is not a C [int]
    ([core.fill] parses it with ["(ii)"]), and [MemoryError] on a width
    above [INT_MAX / 4 - 1] ([ImagingNewPrologueSubtype]). The machine
    running out of memory is not modelled. *)
Definition image_new (w h : Z) : option Canvas :=
  if (w <? 0) || (h <? 0) then None
  else if (INT_MAX <? w) || (INT_MAX <? h) then None
  else if INT_MAX / 4 - 1 <? w then None
  else Some {| cv_width := w; cv_height := h; cv_ops := [] |}.

(** The keyword arguments of [render_chorded_lyrics]. *)
Record Config := {
  title : option str;
  page_width : Z;
  margin : Z;
  line_spacing : Z;
  chord_gap : Z
}.

Definition default_config : Config :=
  {| title := None; page_width := 1500; margin := 60; line_spacing := 18;
     chord_gap := 8 |}.

(** Truthiness of [title]: [None] and [""] are false. *)
Definition title_given (t : option str) : bool :=
  match t with
  | Some (_ :: _) => true
  | _ => false
  end.

(* ------------------------------------------------------------------ *)
(** ** [render_chorded_lyrics] *)

(** Lines 26-33: the three preferred fonts; if any [truetype] call raises,
    all three become [ImageFont.load_default()]. *)
Definition select_fonts (truetype : FontRequest -> option Font)
    (load_default : Font) : Font * Font * Font :=
  match truetype {| font_file := "DejaVuSansMono.ttf"; font_size := 28 |},
        truetype {| font_file := "DejaVuSansMono.ttf"; font_size := 24 |},
        truetype {| font_file := "DejaVuSans.ttf"; font_size := 36 |} with
  | Some base_font, Some chord_font, Some title_font =>
      (base_font, chord_font, title_font)
  | _, _, _ => (load_default, load_default, load_default)
  end.

Section Render.
Variables (base_font chord_font title_font : Font).
Variable chord_map : gmap (Z * Z) str.

(** One iteration of the token loop (lines 58-66) at [(li, ti)] with the
    cursor at [x]: the new cursor and the chord drawn, if any. *)
Definition token_step (li ti y : Z) (x : Q) (tok : str)
    : option (Q * list DrawOp) :=
  if py_str_isspace tok then
    w ← textlength tok base_font; Some ((x + w)%Q, [])
  else
    tok_w ← textlength tok base_font;
    chord_ops ← match chord_map !! (li, ti) with
                | Some chord_txt =>
                    cw ← textlength chord_txt chord_font;
                    op ← draw_text (x + (tok_w - cw) / 2)%Q (inject_Z y)
                           chord_txt chord_font;
                    Some [op]
                | None => Some []
                end;
    sp ← textlength (of_string " ") base_font;
    Some ((x + tok_w + sp)%Q, chord_ops).

(** [for ti, tok in enumerate(tokens)], starting at index [ti]. *)
Fixpoint walk_tokens (li ti y : Z) (x : Q) (tokens : list str)
    : option (Q * list DrawOp) :=
  match tokens with
  | [] => Some (x, [])
  | tok :: rest =>
      '(x1, ops1) ← token_step li ti y x tok;
      '(x2, ops2) ← walk_tokens li (ti + 1) y x1 rest;
      Some (x2, ops1 ++ ops2)
  end.

Section Lines.
Variables (margin_ chord_h chord_gap_ line_h line_spacing_ : Z).

(** [for li, line in enumerate(lines)] (lines 53-69), from index [li]
    with the vertical cursor at [y]. *)
Fixpoint walk_lines (li y : Z) (lines : list str) : option (list DrawOp) :=
  match lines with
  | [] => Some []
  | line :: rest =>
      '(_, chord_ops) ← walk_tokens li 0 y (inject_Z margin_)
                                      (tokenize_line line);
      lyric_op ← draw_text (inject_Z margin_)
                   (inject_Z (y + chord_h + chord_gap_)) line base_font;
      ops ← walk_lines (li + 1)
              (y + chord_h + chord_gap_ + line_h + line_spacing_) rest;
      Some (chord_ops ++ lyric_op :: ops)
  end.
End Lines.

(** Lines 47-51: the title, centred, and the vertical cursor below it. *)
Definition draw_title (title_h : Z) (cfg : Config) : option (Z * list DrawOp) :=
  match title cfg with
  | Some t =>
      if title_given (title cfg) then
        tw ← textlength t title_font;
        op ← draw_text (inject_Z (Qfloor ((inject_Z (page_width cfg) - tw) / 2)%Q))
               (inject_Z (margin cfg)) t title_font;
        Some (margin cfg + title_h, [op])
      else Some (margin cfg, [])
  | None => Some (margin cfg, [])
  end.

(** Lines 35-71 once the fonts are chosen. *)
Definition render_with_fonts (lyrics : str) (cfg : Config) : option Canvas :=
  let lines := splitlines lyrics in
  let line_h := textheight base_font in
  let chord_h := textheight chord_font in
  let title_h := if title_given (title cfg) then textheight title_font + 20 else 0 in
  let total_h := margin cfg + title_h
                 + (line_h + chord_h + chord_gap cfg + line_spacing cfg)
                   * Z.of_nat (length lines)
                 + margin cfg in
  img ← image_new (page_width cfg) total_h;
  '(y, title_ops) ← draw_title title_h cfg;
  body ← walk_lines (margin cfg) chord_h (chord_gap cfg) line_h (line_spacing cfg)
           0 y lines;
  Some {| cv_width := cv_width img; cv_height := cv_height img;
          cv_ops := cv_ops img ++ title_ops ++ body |}.
End Render.

(** [render_chorded_lyrics(lyrics, chord_map, **cfg)]: [truetype] and
    [load_default] stand for [ImageFont.truetype] and [ImageFont.load_default]. *)
Definition render_chorded_lyrics (truetype : FontRequest -> option Font)
    (load_default : Font) (lyrics : str) (chord_map : gmap (Z * Z) str)
    (cfg : Config) : option Canvas :=
  let '(base_font, chord_font, title_font) := select_fonts truetype load_default in
  render_with_fonts base_font chord_font title_font chord_map lyrics cfg.

(** Concrete fonts for evaluating the code: a 14 px monospace face and a
    6 px bitmap default. *)
Definition mono_font : Font :=
  {| getbbox := fun s => (0, 7, 14 * Z.of_nat (length s), 33);
     getlength := fun s => inject_Z (14 * Z.of_nat (length s)) |}.

Definition bitmap_font : Font :=
  {| getbbox := fun s => (0, 0, 6 * Z.of_nat (length s), 11);
     getlength := fun s => inject_Z (6 * Z.of_nat (length s)) |}.

(** A font environment where every [truetype] call succeeds, and one
    where the font files are missing. *)
Definition fonts_present (_ : FontRequest) : option Font := Some mono_font.
Definition fonts_missing (_ : FontRequest) : option Font := None.

(* ------------------------------------------------------------------ *)
(** ** Vocabulary for the layout statements *)

(** The horizontal cursor after token [tok] when it stood at [x]
    (lines 59 and 66). *)
Definition cursor_after (base_font : Font) (x : Q) (tok : str) : Q :=
  if py_str_isspace tok then (x + getlength base_font tok)%Q
  else (x + getlength base_font tok + getlength base_font (of_string " "))%Q.

(** The cursor when token [ti] of [line] is reached: the left edge of
    that token. *)
Definition word_left (base_font : Font) (cfg : Config) (line : str) (ti : nat) : Q :=
  fold_left (cursor_after base_font) (take ti (tokenize_line line))
            (inject_Z (margin cfg)).

(** Text that [ImageDraw.textlength] accepts. *)
Definition no_line_feed (s : str) : Prop := Forall (fun c => c <> 10%N) s.

(** Inputs within Pillow's limits for the fonts [bf], [cf] and [tf]:
    [Image.new] accepts the canvas size, and the title, every Line and
    every chord label on a Word slot are single-line where [textlength]
    measures them and pass the checks of [draw.text] (at most
    [MAX_STRING_LENGTH] characters, a mask within the decompression-bomb
    limit). *)
Definition within_limits (bf cf tf : Font) (chord_map : gmap (Z * Z) str)
    (lyrics : str) (cfg : Config) : Prop :=
  0 <= page_width cfg <= INT_MAX / 4 - 1 /\
  0 <= margin cfg + (if title_given (title cfg) then textheight tf + 20 else 0)
       + (textheight bf + textheight cf + chord_gap cfg + line_spacing cfg)
         * Z.of_nat (length (splitlines lyrics))
       + margin cfg <= INT_MAX /\
  (forall t, title cfg = Some t -> t <> [] ->
     no_line_feed t /\
     text_fits tf (inject_Z (Qfloor ((inject_Z (page_width cfg)
                                      - getlength tf t) / 2)%Q)) t = true) /\
  (forall li line, splitlines lyrics !! li = Some line ->
     text_fits bf (inject_Z (margin cfg)) line = true) /\
  (forall li ti line tok lab, splitlines lyrics !! li = Some line ->
     tokenize_line line !! ti = Some tok -> py_str_isspace tok = false ->
     chord_map !! (Z.of_nat li, Z.of_nat ti) = Some lab ->
     no_line_feed lab /\
     text_fits cf (word_left bf cfg line ti
                   + (getlength bf tok - getlength cf lab) / 2)%Q lab = true).

(** A word slot of [lyrics]: line [li] exists and its token [ti] is a Word. *)
Definition word_slot (lyrics : str) (li ti : nat) : Prop :=
  exists line tok, splitlines lyrics !! li = Some line /\
    tokenize_line line !! ti = Some tok /\ py_str_isspace tok = false.

(* ------------------------------------------------------------------ *)
(** ** The chord form (lines 80-108) *)

(** The decimal digits of a [Decimal.uint], most significant first. *)
Fixpoint uint_digits (d : Decimal.uint) : str :=
  match d with
  | Decimal.Nil => []
  | Decimal.D0 d => 48%N :: uint_digits d
  | Decimal.D1 d => 49%N :: uint_digits d
  | Decimal.D2 d => 50%N :: uint_digits d
  | Decimal.D3 d => 51%N :: uint_digits d
  | Decimal.D4 d => 52%N :: uint_digits d
  | Decimal.D5 d => 53%N :: uint_digits d
  | Decimal.D6 d => 54%N :: uint_digits d
  | Decimal.D7 d => 55%N :: uint_digits d
  | Decimal.D8 d => 56%N :: uint_digits d
  | Decimal.D9 d => 57%N :: uint_digits d
  end.

(** [str(n)] for a non-negative [int] (an [enumerate] index). *)
Definition py_str_int (n : nat) : str := uint_digits (Nat.to_uint n).

(** [f"li{li}_ti{ti}"] (lines 89 and 104): the widget key of a word. *)
Definition key_name (li ti : nat) : str :=
  of_string "li" ++ py_str_int li ++ of_string "_ti" ++ py_str_int ti.

(** Leading whitespace removed. *)
Fixpoint lstrip (s : str) : str :=
  match s with
  | [] => []
  | c :: r => if py_isspace c then lstrip r else s
  end.

(** [str.strip()]: leading and trailing whitespace removed. *)
Definition py_strip (s : str) : str := rev (lstrip (rev (lstrip s))).

(** Lines 102-106 for token [tok] at [(li, ti)], with [widget] standing for
    [st.session_state.get(key, None)]: the chord entered for the word, if
    any: [None] for a whitespace token or a blank field. *)
Definition tok_entry (widget : str -> option str) (li ti : nat) (tok : str)
    : option str :=
  if py_str_isspace tok then None
  else
    match py_strip (default [] (widget (key_name li ti))) with
    | [] => None
    | v => Some v
    end.

(** The inner loop (lines 101-108), threading [(chord_map,
    st.session_state.chords)]. *)
Fixpoint collect_tokens (widget : str -> option str) (li ti : nat)
    (tokens : list str) (acc : gmap (Z * Z) str * gmap (Z * Z) str)
    : gmap (Z * Z) str * gmap (Z * Z) str :=
  match tokens with
  | [] => acc
  | tok :: rest =>
      let acc' :=
        match tok_entry widget li ti tok with
        | Some v =>
            (<[(Z.of_nat li, Z.of_nat ti) := v]> acc.1,
             <[(Z.of_nat li, Z.of_nat ti) := v]> acc.2)
        | None => acc
        end in
      collect_tokens widget li (S ti) rest acc'
  end.

(** The outer loop (line 99). *)
Fixpoint collect_lines (widget : str -> option str) (li : nat)
    (lines : list str) (acc : gmap (Z * Z) str * gmap (Z * Z) str)
    : gmap (Z * Z) str * gmap (Z * Z) str :=
  match lines with
  | [] => acc
  | line :: rest =>
      collect_lines widget (S li) rest
        (collect_tokens widget li 0 (tokenize_line line) acc)
  end.

(** Lines 98-108 on [lines = lyrics.splitlines()]: the [chord_map] passed to
    the render, and the new [st.session_state.chords]. *)
Definition collect_chord_map (widget : str -> option str) (lyrics : str)
    (chords : gmap (Z * Z) str) : gmap (Z * Z) str * gmap (Z * Z) str :=
  collect_lines widget 0 (splitlines lyrics) (∅, chords).

(** The text fields of the form (lines 82-92): the column it is placed in,
    its label [f"'{tok}'"], its key and its pre-filled value. *)
Record Field := {
  fld_col : nat;
  fld_label : str;
  fld_key : str;
  fld_value : str
}.

(** [min(8, max(1, len(tokens)))]: the number of columns of a Line. *)
Definition n_cols (tokens : list str) : nat := Nat.min 8 (Nat.max 1 (length tokens)).

(** The inner loop (lines 85-92) with [len(cols) = ncols]: [cols[col_idx %
    len(cols)]] raises [ZeroDivisionError] when there is no column and
    [IndexError] past the last one. *)
Fixpoint line_fields (chords : gmap (Z * Z) str) (li ncols ti col_idx : nat)
    (tokens : list str) : option (list Field) :=
  match tokens with
  | [] => Some []
  | tok :: rest =>
      if py_str_isspace tok then line_fields chords li ncols (S ti) col_idx rest
      else
        match ncols with
        | O => None
        | _ =>
            let c := Nat.modulo col_idx ncols in
            if Nat.ltb c ncols then
              fs ← line_fields chords li ncols (S ti) (S col_idx) rest;
              Some ({| fld_col := c;
                       fld_label := [39%N] ++ tok ++ [39%N];
                       fld_key := key_name li ti;
                       fld_value := default [] (chords !! (Z.of_nat li, Z.of_nat ti)) |}
                    :: fs)
            else None
        end
  end.

(** The outer loop (lines 82-84). *)
Fixpoint form_lines (chords : gmap (Z * Z) str) (li : nat) (lines : list str)
    : option (list Field) :=
  match lines with
  | [] => Some []
  | line :: rest =>
      let tokens := tokenize_line line in
      fs ← line_fields chords li (n_cols tokens) 0 0 tokens;
      fs' ← form_lines chords (S li) rest;
      Some (fs ++ fs')
  end.

Definition form_fields (chords : gmap (Z * Z) str) (lyrics : str)
    : option (list Field) :=
  form_lines chords 0 (splitlines lyrics).

(** The number of Word tokens in a list of tokens. *)
Definition word_count (tokens : list str) : nat :=
  length (List.filter (fun t => negb (py_str_isspace t)) tokens).

(* ------------------------------------------------------------------ *)
(** ** Tokenizer lemmas *)

Lemma span_run_spec (p : N -> bool) (s a b : str) :
  span_run p s = (a, b) ->
  a ++ b = s /\ Forall (fun x => p x = true) a /\
  (forall d r, b = d :: r -> p d = false).
Proof.
  revert a b. induction s as [|c r IH]; intros a b H; simpl in H.
  - injection H as <- <-. split; [done|]. split; [constructor|]. done.
  - destruct (p c) eqn:Hc.
    + destruct (span_run p r) as [a' b'] eqn:Hr. injection H as <- <-.
      destruct (IH a' b' eq_refl) as (Happ & Hall & Hstop).
      split; [by rewrite <- Happ|]. split; [by constructor|]. exact Hstop.
    + injection H as <- <-. split; [done|]. split; [constructor|].
      intros d r' Heq. injection Heq as -> ->. exact Hc.
Qed.

Lemma match_token_cons (c : N) (r : str) :
  exists tok rest,
    match_token (c :: r) = Some (tok, rest) /\
    uniform (py_isspace c) tok /\ tok ++ rest = c :: r /\
    (forall d r', rest = d :: r' -> py_isspace d = negb (py_isspace c)).
Proof.
  unfold match_token. simpl.
  destruct (py_isspace c) eqn:Hc; simpl.
  - destruct (span_run py_isspace r) as [a b] eqn:Hr.
    destruct (span_run_spec _ _ _ _ Hr) as (Happ & Hall & Hstop).
    exists (c :: a), b. split; [done|]. split.
    + split; [done|]. constructor; [exact Hc|exact Hall].
    + split; [by rewrite <- Happ|]. intros d r' Hb. by rewrite (Hstop d r' Hb).
  - destruct (span_run (fun c0 => negb (py_isspace c0)) r) as [a b] eqn:Hr.
    destruct (span_run_spec _ _ _ _ Hr) as (Happ & Hall & Hstop).
    exists (c :: a), b. split; [done|]. split.
    + split; [done|]. constructor; [exact Hc|].
      eapply Forall_impl; [exact Hall|]. intros x Hx. cbn in Hx. by apply negb_true_iff in Hx.
    + split; [by rewrite <- Happ|]. intros d r' Hb.
      specialize (Hstop d r' Hb). by destruct (py_isspace d).
Qed.

(** Everything the scan yields, for enough fuel. *)
Lemma findall_fuel_spec (f : nat) (s : str) :
  (length s < f)%nat ->
  let toks := findall_fuel f s in
  concat toks = s /\
  Forall (fun t => exists b, uniform b t) toks /\
  (forall i t1 t2, toks !! i = Some t1 -> toks !! S i = Some t2 ->
     exists b, uniform b t1 /\ uniform (negb b) t2) /\
  (forall c r, s = c :: r -> exists t ts, toks = t :: ts /\ uniform (py_isspace c) t).
Proof.
  revert s. induction f as [|f IH]; intros s Hlen; [lia|].
  destruct s as [|c r].
  - simpl. split; [done|]. split; [constructor|]. split; [|done].
    intros i t1 t2 H. done.
  - destruct (match_token_cons c r) as (tok & rest & Hm & Hu & Happ & Hnext).
    simpl findall_fuel. rewrite Hm.
    assert (Hrest : (length rest < f)%nat).
    { assert (length tok + length rest = S (length r))%nat as E.
      { rewrite <- length_app, Happ. done. }
      destruct Hu as [Hne _]. destruct tok; [done|]. simpl in *. lia. }
    destruct (IH rest Hrest) as (Hc & Hall & Halt & Hhd).
    split; [simpl; by rewrite Hc|]. split; [constructor; [by exists (py_isspace c)|done]|].
    split.
    + intros [|i] t1 t2 H1 H2; simpl in H1, H2.
      * injection H1 as <-. destruct rest as [|d r'].
        { simpl in H2. destruct f; done. }
        destruct (Hhd d r' eq_refl) as (t & ts & Ht & Hut).
        rewrite Ht in H2. injection H2 as <-.
        exists (py_isspace c). split; [done|]. by rewrite <- (Hnext d r' eq_refl).
      * exact (Halt i t1 t2 H1 H2).
    + intros c' r' Heq. injection Heq as <- <-. by exists tok, (findall_fuel f rest).
Qed.

Lemma tokenize_line_spec (line : str) :
  concat (tokenize_line line) = line /\
  Forall (fun t => exists b, uniform b t) (tokenize_line line) /\
  (forall i t1 t2, tokenize_line line !! i = Some t1 ->
     tokenize_line line !! S i = Some t2 ->
     exists b, uniform b t1 /\ uniform (negb b) t2).
Proof.
  destruct (findall_fuel_spec (S (length line)) line) as (H1 & H2 & H3 & _); [lia|].
  unfold tokenize_line. done.
Qed.

Lemma uniform_str_isspace (b : bool) (t : str) :
  uniform b t -> py_str_isspace t = b.
Proof.
  intros [Hne Hall]. destruct t as [|c r]; [done|].
  unfold py_str_isspace. destruct b.
  - apply forallb_forall. intros x Hx. rewrite List.Forall_forall in Hall.
    by apply Hall.
  - apply not_true_iff_false. intros Hf.
    rewrite forallb_forall in Hf. inversion Hall; subst.
    rewrite (Hf c) in H1; [done|]. by left.
Qed.

(** C1. Tokenizer partition law: concatenating the tokens of
    [tokenize_line s] in order gives back [s]; every token is non-empty,
    so each character of [s] lies in exactly one token. *)
Theorem tokenize_line_partition (s : str) :
  concat (tokenize_line s) = s /\ Forall (fun t => t <> []) (tokenize_line s).
Proof.
  destruct (tokenize_line_spec s) as (Hc & Hu & _). split; [exact Hc|].
  eapply Forall_impl; [exact Hu|]. intros t [b [Hne _]]. exact Hne.
Qed.

(** C6. Tokenizer classification and alternation: every token is either
    all whitespace ([str.isspace()] holds) or has no whitespace character,
    and two consecutive tokens never have the same classification. *)
Theorem tokenize_line_alternates (line : str) :
  Forall (fun t => py_str_isspace t = true \/
                   Forall (fun c => py_isspace c = false) t)
         (tokenize_line line) /\
  (forall i t1 t2, tokenize_line line !! i = Some t1 ->
     tokenize_line line !! S i = Some t2 ->
     py_str_isspace t1 <> py_str_isspace t2).
Proof.
  destruct (tokenize_line_spec line) as (_ & Hu & Halt). split.
  - eapply Forall_impl; [exact Hu|]. intros t [[|] Ht].
    + left. exact (uniform_str_isspace true t Ht).
    + right. exact (proj2 Ht).
  - intros i t1 t2 H1 H2. destruct (Halt i t1 t2 H1 H2) as (b & Hb1 & Hb2).
    rewrite (uniform_str_isspace _ _ Hb1), (uniform_str_isspace _ _ Hb2).
    by destruct b.
Qed.

(* ------------------------------------------------------------------ *)
(** ** Line splitting *)

Lemma span_run_app_stop (p : N -> bool) (s t a : str) (d : N) (r : str) :
  span_run p s = (a, d :: r) -> span_run p (s ++ t) = (a, d :: r ++ t).
Proof.
  revert a. induction s as [|c s IH]; intros a H; simpl in H; [done|].
  simpl. destruct (p c).
  - destruct (span_run p s) as [a' b'] eqn:E. injection H as <- ->.
    by rewrite (IH a' eq_refl).
  - by injection H as <- <- <-.
Qed.

Lemma span_run_app_all (p : N -> bool) (s t a : str) :
  span_run p s = (a, []) ->
  span_run p (s ++ t) = let '(a', b') := span_run p t in (a ++ a', b').
Proof.
  revert a. induction s as [|c s IH]; intros a H; simpl in H.
  - injection H as <-. simpl. by destruct (span_run p t).
  - simpl. destruct (p c); [|done].
    destruct (span_run p s) as [a' b'] eqn:E. injection H as <- ->.
    rewrite (IH a' eq_refl). by destruct (span_run p t).
Qed.

Lemma ends_with_linebreak_app (s1 s2 : str) :
  s2 <> [] -> ends_with_linebreak (s1 ++ s2) = ends_with_linebreak s2.
Proof.
  intros Hne. unfold ends_with_linebreak. rewrite last_app.
  destruct (last s2) eqn:E; [done|]. by apply last_None in E.
Qed.

Lemma skip_break_app (c e : N) (r1 t : str) :
  skip_break (c :: (e :: r1) ++ t) = skip_break (c :: e :: r1) ++ t.
Proof. simpl. by destruct (c =? 13)%N, (e =? 10)%N. Qed.

Lemma skip_break_suffix (c e : N) (r1 : str) :
  exists u, e :: r1 = u ++ skip_break (c :: e :: r1).
Proof.
  simpl. destruct (c =? 13)%N, (e =? 10)%N; try by exists [].
  by exists [e].
Qed.

Lemma skip_break_nil (c e : N) (r1 : str) :
  skip_break (c :: e :: r1) = [] -> e = 10%N /\ r1 = [].
Proof.
  simpl. destruct (c =? 13)%N; [|done].
  destruct (e =? 10)%N eqn:He; [|done]. intros ->. split; [|done].
  by apply N.eqb_eq.
Qed.

Lemma line_break_seq_inv (brk : str) :
  line_break_seq brk = true ->
  exists d b', brk = d :: b' /\ py_islinebreak d = true /\ skip_break brk = [].
Proof.
  destruct brk as [|d [|e [|? ?]]]; simpl; try done.
  - intros Hd. exists d, []. split; [done|]. split; [done|].
    by destruct (d =? 13)%N.
  - intros Hde. apply andb_true_iff in Hde as [Hd He].
    apply N.eqb_eq in Hd as ->. apply N.eqb_eq in He as ->.
    by exists 13%N, [10%N].
Qed.

Lemma splitlines_app_break (f : nat) (s brk : str) :
  (length (s ++ brk) < f)%nat -> s <> [] -> ends_with_linebreak s = false ->
  line_break_seq brk = true ->
  splitlines_fuel f (s ++ brk) = splitlines_fuel f s.
Proof.
  revert s. induction f as [|f IH]; intros s Hlen Hne Hend Hbrk; [lia|].
  destruct (line_break_seq_inv brk Hbrk) as (d & b' & -> & Hd & Hskip).
  destruct s as [|x s0]; [done|].
  cbn [splitlines_fuel app].
  set (p := fun c => negb (py_islinebreak c)).
  change (x :: s0 ++ d :: b') with ((x :: s0) ++ d :: b').
  remember (x :: s0) as s eqn:Es.
  destruct (span_run p s) as [line rest] eqn:E.
  destruct (span_run_spec _ _ _ _ E) as (Happ & _ & Hstop).
  destruct rest as [|c r].
  - rewrite (span_run_app_all _ _ _ _ E). simpl. unfold p at 1. rewrite Hd.
    simpl. rewrite app_nil_r. simpl in Hskip. rewrite Hskip. by destruct f.
  - rewrite (span_run_app_stop _ _ _ _ _ _ E).
    assert (Hc : py_islinebreak c = true).
    { specialize (Hstop c r eq_refl). unfold p in Hstop.
      by destruct (py_islinebreak c). }
    destruct r as [|e r1].
    + exfalso. rewrite <- Happ in Hend.
      rewrite ends_with_linebreak_app in Hend; [|done].
      unfold ends_with_linebreak in Hend. simpl in Hend. congruence.
    + rewrite skip_break_app. f_equal.
      destruct (skip_break_suffix c e r1) as [u Hu].
      assert (Hs : s = (line ++ c :: u) ++ skip_break (c :: e :: r1)).
      { rewrite <- Happ, <- app_assoc. cbn [app]. by rewrite <- Hu. }
      destruct (skip_break (c :: e :: r1)) as [|y s''] eqn:Es'.
      * exfalso. destruct (skip_break_nil c e r1 Es') as [-> ->].
        rewrite <- Happ in Hend.
        rewrite ends_with_linebreak_app in Hend; [|done]. done.
      * apply IH.
        -- rewrite Hs, !length_app in Hlen. rewrite length_app. simpl in *. lia.
        -- done.
        -- rewrite Hs in Hend. rewrite ends_with_linebreak_app in Hend; done.
        -- done.
Qed.

Lemma skip_break_shorter (c : N) (r : str) :
  (length (skip_break (c :: r)) <= length r)%nat.
Proof.
  simpl. destruct (c =? 13)%N; [|lia].
  destruct r as [|d r']; [done|]. destruct (d =? 10)%N; simpl; lia.
Qed.

Lemma splitlines_fuel_enough (f g : nat) (s : str) :
  (length s < f)%nat -> (length s < g)%nat ->
  splitlines_fuel f s = splitlines_fuel g s.
Proof.
  revert g s. induction f as [|f IH]; intros g s Hf Hg; [lia|].
  destruct g as [|g]; [lia|].
  destruct s as [|x s0]; [done|].
  cbn [splitlines_fuel].
  destruct (span_run (fun c => negb (py_islinebreak c)) (x :: s0)) as [line rest] eqn:E.
  f_equal.
  destruct (span_run_spec _ _ _ _ E) as (Happ & _ & _).
  assert (Hl : (length (skip_break rest) < S (length s0))%nat).
  { assert (HL : length (line ++ rest) = S (length s0)) by (rewrite Happ; done).
    rewrite length_app in HL. destruct rest as [|c r]; [simpl; lia|].
    pose proof (skip_break_shorter c r). simpl in HL. lia. }
  apply IH; simpl in *; lia.
Qed.

(** C8, as stated: NOT every string that ends in a line break splits into
    the same Lines as the string without that break.  A lone line feed
    splits into one empty line, the empty string into none. *)
Lemma splitlines_trailing_break_counterexample :
  ~ (forall s : str, ends_with_linebreak s = true ->
       splitlines s = splitlines (strip_line_break s)).
Proof.
  intros H. specialize (H [10%N] eq_refl). vm_compute in H. discriminate H.
Qed.

(** C8, amended: a trailing line break ends the last line rather than
    opening a new one: for a non-empty string [s] that does not already end
    in a line break, [s] followed by one line break (a single line-break
    character, or CR LF) splits into the same Lines as [s]. *)
Theorem splitlines_trailing_break (s brk : str) :
  s <> [] -> ends_with_linebreak s = false -> line_break_seq brk = true ->
  splitlines (s ++ brk) = splitlines s.
Proof.
  intros Hne Hend Hbrk. unfold splitlines.
  rewrite (splitlines_app_break _ s brk); [| lia | done | done | done].
  apply splitlines_fuel_enough; rewrite ?length_app; lia.
Qed.

Lemma splitlines_trailing_break_witness :
  of_string "ab" <> [] /\ ends_with_linebreak (of_string "ab") = false /\
  line_break_seq [13%N; 10%N] = true /\
  splitlines (of_string "ab" ++ [13%N; 10%N]) = splitlines (of_string "ab").
Proof.
  split; [discriminate|]. split; [reflexivity|]. split; [reflexivity|].
  apply (splitlines_trailing_break (of_string "ab") [13%N; 10%N]);
    [discriminate | reflexivity | reflexivity].
Defined.

(* ------------------------------------------------------------------ *)
(** ** Text measurement never fails on lyric text *)

Lemma textlength_some (t : str) (f : Font) (w : Q) :
  textlength t f = Some w -> w = getlength f t.
Proof.
  unfold textlength. destruct (existsb _ _); [done|].
  destruct (string_length_ok t); [by injection 1|done].
Qed.

Lemma textlength_length (t : str) (f : Font) (w : Q) :
  textlength t f = Some w -> string_length_ok t = true.
Proof.
  unfold textlength. destruct (existsb _ _); [done|].
  by destruct (string_length_ok t).
Qed.

Lemma draw_text_some (x y : Q) (t : str) (f : Font) (o : DrawOp) :
  draw_text x y t f = Some o -> o = DrawText x y t f /\ text_fits f x t = true.
Proof. unfold draw_text. destruct (text_fits f x t); [by intros [= <-]|done]. Qed.

(** Replaces each successful measurement by the width it returns and each
    successful [draw.text] by the text it draws. *)
Ltac measured :=
  repeat match goal with
  | Hw : textlength _ _ = Some _ |- _ => apply textlength_some in Hw; subst
  | Hd : draw_text _ _ _ _ = Some _ |- _ => apply draw_text_some in Hd as [-> _]
  end.

Lemma image_new_some (w h : Z) (img : Canvas) :
  image_new w h = Some img ->
  img = Build_Canvas w h [] /\ (0 <= w <= INT_MAX / 4 - 1 /\ 0 <= h <= INT_MAX).
Proof.
  unfold image_new.
  destruct (w <? 0) eqn:E1, (h <? 0) eqn:E2; try discriminate; simpl.
  destruct (INT_MAX <? w) eqn:E3, (INT_MAX <? h) eqn:E4; try discriminate; simpl.
  destruct (INT_MAX / 4 - 1 <? w) eqn:E5; [discriminate|].
  intros [= <-]. apply Z.ltb_ge in E1, E2, E3, E4, E5. split; [done|]. lia.
Qed.

Lemma image_new_none (w h : Z) :
  image_new w h = None <-> ~ (0 <= w <= INT_MAX / 4 - 1 /\ 0 <= h <= INT_MAX).
Proof.
  split.
  - unfold image_new. intros H [[Hw0 Hw1] [Hh0 Hh1]].
    assert (E : (w <? 0) = false /\ (h <? 0) = false /\ (INT_MAX <? w) = false /\
                (INT_MAX <? h) = false /\ (INT_MAX / 4 - 1 <? w) = false).
    { assert (INT_MAX / 4 - 1 = 536870910) as Hq by reflexivity.
      assert (INT_MAX = 2147483647) as Hm by reflexivity.
      rewrite Hq in *. rewrite Hm in *. repeat split; apply Z.ltb_ge; lia. }
    destruct E as (E1 & E2 & E3 & E4 & E5).
    rewrite E1, E2 in H. simpl in H. rewrite E3, E4 in H. simpl in H.
    rewrite E5 in H. discriminate H.
  - intros H. destruct (image_new w h) as [img|] eqn:Himg; [|done].
    apply image_new_some in Himg as [_ Hb]. by destruct (H Hb).
Qed.

Lemma textlength_ok (t : str) (f : Font) :
  no_line_feed t -> string_length_ok t = true ->
  textlength t f = Some (getlength f t).
Proof.
  intros Ht Hlen. unfold textlength. rewrite Hlen.
  destruct (existsb (N.eqb 10) t) eqn:E; [|done].
  apply existsb_exists in E as (c & Hin & Hc). apply N.eqb_eq in Hc as <-.
  unfold no_line_feed in Ht. rewrite List.Forall_forall in Ht.
  by destruct (Ht 10%N Hin).
Qed.

Lemma splitlines_fuel_no_break (f : nat) (s line : str) (k : nat) :
  splitlines_fuel f s !! k = Some line ->
  Forall (fun c => py_islinebreak c = false) line.
Proof.
  revert s k. induction f as [|f IH]; intros s k H; [done|].
  destruct s as [|x s0]; [done|]. cbn [splitlines_fuel] in H.
  destruct (span_run (fun c => negb (py_islinebreak c)) (x :: s0))
    as [l rest] eqn:E.
  destruct k as [|k]; simpl in H.
  - injection H as <-. destruct (span_run_spec _ _ _ _ E) as (_ & Hall & _).
    eapply Forall_impl; [exact Hall|]. intros c Hc. cbn in Hc.
    by apply negb_true_iff in Hc.
  - exact (IH _ _ H).
Qed.

Lemma token_no_line_feed (lyrics line tok : str) (li ti : nat) :
  splitlines lyrics !! li = Some line -> tokenize_line line !! ti = Some tok ->
  no_line_feed tok.
Proof.
  intros Hl Ht.
  pose proof (splitlines_fuel_no_break _ _ _ _ Hl) as Hnb.
  destruct (tokenize_line_partition line) as [Hc _].
  rewrite <- Hc in Hnb.
  apply list_elem_of_lookup_2, list_elem_of_In in Ht.
  unfold no_line_feed. rewrite List.Forall_forall in Hnb |- *.
  intros c Hin ->. specialize (Hnb 10%N).
  assert (Hin' : In 10%N (concat (tokenize_line line))).
  { apply in_concat. by exists tok. }
  specialize (Hnb Hin'). done.
Qed.

(* ------------------------------------------------------------------ *)
(** ** The token walk *)

Section Walk.
Variables (bf cf : Font) (cm : gmap (Z * Z) str).

Lemma token_step_cursor (li ti y : Z) (x x1 : Q) (tok : str) ops :
  token_step bf cf cm li ti y x tok = Some (x1, ops) ->
  x1 = cursor_after bf x tok.
Proof.
  unfold token_step, cursor_after.
  destruct (py_str_isspace tok); intros H; simplify_option_eq.
  - measured; done.
  - destruct (cm !! (li, ti)); simplify_option_eq;
      measured; done.
Qed.

Lemma walk_tokens_chord (li ti0 y : Z) (x x' : Q) (toks : list str) ops
    (k : nat) (tok lab : str) :
  walk_tokens bf cf cm li ti0 y x toks = Some (x', ops) ->
  toks !! k = Some tok -> py_str_isspace tok = false ->
  cm !! (li, ti0 + Z.of_nat k) = Some lab ->
  In (DrawText (fold_left (cursor_after bf) (take k toks) x
                + (getlength bf tok - getlength cf lab) / 2)%Q
               (inject_Z y) lab cf) ops.
Proof.
  revert ti0 x x' ops k. induction toks as [|t rest IH];
    intros ti0 x x' ops k Hw Hk Hsp Hlab; [done|].
  simpl in Hw.
  destruct (token_step bf cf cm li ti0 y x t) as [[x1 ops1]|] eqn:Hs;
    [|discriminate]. simpl in Hw.
  destruct (walk_tokens bf cf cm li (ti0 + 1) y x1 rest) as [[x2 ops2]|] eqn:Hr;
    [|discriminate]. simpl in Hw. injection Hw as <- <-.
  destruct k as [|k]; simpl in Hk.
  - injection Hk as ->. rewrite Z.add_0_r in Hlab. simpl.
    apply in_or_app. left.
    unfold token_step in Hs. rewrite Hsp, Hlab in Hs. simplify_option_eq.
    measured. by left.
  - simpl. apply in_or_app. right.
    rewrite <- (token_step_cursor _ _ _ _ _ _ _ Hs).
    eapply IH; [exact Hr | exact Hk | exact Hsp |].
    rewrite <- Hlab. do 2 f_equal. lia.
Qed.
End Walk.

(* ------------------------------------------------------------------ *)
(** ** The line walk and the whole render *)

Lemma walk_lines_tokens (bf cf : Font) (cm : gmap (Z * Z) str)
    (m ch g lh ls li0 y : Z) (lines : list str) ops (k : nat) (line : str) :
  walk_lines bf cf cm m ch g lh ls li0 y lines = Some ops ->
  lines !! k = Some line ->
  exists y' x' ops',
    walk_tokens bf cf cm (li0 + Z.of_nat k) 0 y' (inject_Z m)
                (tokenize_line line) = Some (x', ops') /\
    (forall o, In o ops' -> In o ops).
Proof.
  revert li0 y ops k. induction lines as [|l rest IH];
    intros li0 y ops k Hw Hk; [done|].
  simpl in Hw.
  destruct (walk_tokens bf cf cm li0 0 y (inject_Z m) (tokenize_line l))
    as [[x1 ops1]|] eqn:Ht; [|discriminate]. simpl in Hw.
  destruct (draw_text _ _ l bf) as [lop|] eqn:Hd; [|discriminate]. simpl in Hw.
  apply draw_text_some in Hd as [-> _].
  destruct (walk_lines bf cf cm m ch g lh ls (li0 + 1) (y + ch + g + lh + ls) rest)
    as [ops2|] eqn:Hr; [|discriminate]. simpl in Hw. injection Hw as <-.
  destruct k as [|k]; simpl in Hk.
  - injection Hk as ->. exists y, x1, ops1. rewrite Z.add_0_r.
    split; [exact Ht|]. intros o Ho. apply in_or_app. by left.
  - destruct (IH _ _ _ _ Hr Hk) as (y' & x' & ops' & Hw' & Hincl).
    exists y', x', ops'. split.
    + replace (li0 + Z.of_nat (S k)) with (li0 + 1 + Z.of_nat k) by lia. exact Hw'.
    + intros o Ho. apply in_or_app. right. right. by apply Hincl.
Qed.

Lemma render_with_fonts_inv (bf cf tf : Font) (cm : gmap (Z * Z) str)
    (lyrics : str) (cfg : Config) (cv : Canvas) :
  render_with_fonts bf cf tf cm lyrics cfg = Some cv ->
  cv_width cv = page_width cfg /\
  cv_height cv = margin cfg
                 + (if title_given (title cfg) then textheight tf + 20 else 0)
                 + (textheight bf + textheight cf + chord_gap cfg + line_spacing cfg)
                   * Z.of_nat (length (splitlines lyrics))
                 + margin cfg /\
  exists y0 title_ops body,
    walk_lines bf cf cm (margin cfg) (textheight cf) (chord_gap cfg)
               (textheight bf) (line_spacing cfg) 0 y0 (splitlines lyrics)
      = Some body /\
    cv_ops cv = title_ops ++ body.
Proof.
  unfold render_with_fonts. intros H.
  destruct (image_new _ _) as [img|] eqn:Himg; [|discriminate]. simpl in H.
  apply image_new_some in Himg as [-> _].
  destruct (draw_title tf _ cfg) as [[y0 title_ops]|]; [|discriminate].
  simpl in H.
  destruct (walk_lines _ _ _ _ _ _ _ _ _ _ _) as [body|] eqn:Hb;
    [|discriminate]. simpl in H. injection H as <-. simpl.
  split; [done|]. split; [done|]. by exists y0, title_ops, body.
Qed.

(** C2. Canvas sizing: whenever [render_chorded_lyrics] returns a canvas,
    its width is the configured page width and its height is
    [margin*2 + titleHeight + N*(chordRowHeight + chordGap + lyricRowHeight
    + lineSpacing)], with [N] the number of Lines and [titleHeight] the
    title block height ([textheight] of the title font plus 20), zero when
    no title is given. *)
Theorem render_canvas_size (truetype : FontRequest -> option Font)
    (load_default : Font) (lyrics : str) (cm : gmap (Z * Z) str) (cfg : Config)
    (bf cf tf : Font) (cv : Canvas) :
  select_fonts truetype load_default = (bf, cf, tf) ->
  render_chorded_lyrics truetype load_default lyrics cm cfg = Some cv ->
  cv_height cv =
    margin cfg * 2
    + (if title_given (title cfg) then textheight tf + 20 else 0)
    + Z.of_nat (length (splitlines lyrics))
      * (textheight cf + chord_gap cfg + textheight bf + line_spacing cfg) /\
  cv_width cv = page_width cfg.
Proof.
  intros Hsel Hr. unfold render_chorded_lyrics in Hr. rewrite Hsel in Hr.
  destruct (render_with_fonts_inv _ _ _ _ _ _ _ Hr) as (Hw & Hh & _).
  split; [rewrite Hh; lia | exact Hw].
Qed.

Lemma render_canvas_size_witness :
  select_fonts fonts_present bitmap_font = (mono_font, mono_font, mono_font) /\
  render_chorded_lyrics fonts_present bitmap_font (of_string "Guide me")
    {[(0, 0) := of_string "C"]} default_config =
    Some {| cv_width := 1500; cv_height := 198;
            cv_ops := [DrawText (176 # 2) 60 (of_string "C") mono_font;
                       DrawText 60 94 (of_string "Guide me") mono_font] |} /\
  198 = margin default_config * 2
        + (if title_given (title default_config) then textheight mono_font + 20 else 0)
        + Z.of_nat (length (splitlines (of_string "Guide me")))
          * (textheight mono_font + chord_gap default_config
             + textheight mono_font + line_spacing default_config) /\
  1500 = page_width default_config.
Proof.
  assert (Hs : select_fonts fonts_present bitmap_font = (mono_font, mono_font, mono_font))
    by reflexivity.
  assert (Hr : render_chorded_lyrics fonts_present bitmap_font (of_string "Guide me")
    {[(0, 0) := of_string "C"]} default_config =
    Some {| cv_width := 1500; cv_height := 198;
            cv_ops := [DrawText (176 # 2) 60 (of_string "C") mono_font;
                       DrawText 60 94 (of_string "Guide me") mono_font] |})
    by reflexivity.
  split; [exact Hs|]. split; [exact Hr|].
  exact (render_canvas_size _ _ _ _ _ _ _ _ _ Hs Hr).
Defined.

(** C4. Chord placement: for a chord keyed to a Word token [(li, ti)], the
    chord label is drawn in the chord font at the horizontal offset
    [left + (w - c)/2], where [left] is the cursor when the word is reached,
    [w] the word's width in the lyric font and [c] the label's width in the
    chord font; exactly, with no clamping when [c > w]. *)
Theorem chord_centered_over_word (truetype : FontRequest -> option Font)
    (load_default : Font) (lyrics : str) (cm : gmap (Z * Z) str) (cfg : Config)
    (bf cf tf : Font) (cv : Canvas) (li ti : nat) (line tok lab : str) :
  select_fonts truetype load_default = (bf, cf, tf) ->
  render_chorded_lyrics truetype load_default lyrics cm cfg = Some cv ->
  splitlines lyrics !! li = Some line ->
  tokenize_line line !! ti = Some tok ->
  py_str_isspace tok = false ->
  cm !! (Z.of_nat li, Z.of_nat ti) = Some lab ->
  exists y,
    In (DrawText (word_left bf cfg line ti
                  + (getlength bf tok - getlength cf lab) / 2)%Q y lab cf)
       (cv_ops cv).
Proof.
  intros Hsel Hr Hl Ht Hsp Hlab. unfold render_chorded_lyrics in Hr.
  rewrite Hsel in Hr.
  destruct (render_with_fonts_inv _ _ _ _ _ _ _ Hr)
    as (_ & _ & y0 & title_ops & body & Hb & Hops).
  destruct (walk_lines_tokens _ _ _ _ _ _ _ _ _ _ _ _ _ _ Hb Hl)
    as (y' & x' & ops' & Hw & Hincl).
  exists (inject_Z y'). rewrite Hops. apply in_or_app. right. apply Hincl.
  unfold word_left.
  eapply walk_tokens_chord; [exact Hw | exact Ht | exact Hsp |].
  rewrite <- Hlab. do 2 f_equal; lia.
Qed.

Lemma chord_centered_over_word_witness :
  exists y, In (DrawText (word_left mono_font default_config (of_string "Guide me") 0
                 + (getlength mono_font (of_string "Guide")
                    - getlength mono_font (of_string "C")) / 2)%Q
                y (of_string "C") mono_font)
            [DrawText (176 # 2) 60 (of_string "C") mono_font;
             DrawText 60 94 (of_string "Guide me") mono_font].
Proof.
  apply (chord_centered_over_word fonts_present bitmap_font (of_string "Guide me")
           {[(0, 0) := of_string "C"]} default_config mono_font mono_font mono_font
           {| cv_width := 1500; cv_height := 198;
              cv_ops := [DrawText (176 # 2) 60 (of_string "C") mono_font;
                         DrawText 60 94 (of_string "Guide me") mono_font] |}
           0 0 (of_string "Guide me") (of_string "Guide") (of_string "C"));
    reflexivity.
Defined.

(* ------------------------------------------------------------------ *)
(** ** Only chord entries at Word slots are ever looked up *)

Lemma token_step_ext (bf cf : Font) (cm1 cm2 : gmap (Z * Z) str)
    (li ti y : Z) (x : Q) (tok : str) :
  (py_str_isspace tok = false -> cm1 !! (li, ti) = cm2 !! (li, ti)) ->
  token_step bf cf cm1 li ti y x tok = token_step bf cf cm2 li ti y x tok.
Proof.
  unfold token_step. destruct (py_str_isspace tok); [done|].
  intros H. by rewrite H.
Qed.

Lemma walk_tokens_ext (bf cf : Font) (cm1 cm2 : gmap (Z * Z) str)
    (li ti0 y : Z) (x : Q) (toks : list str) :
  (forall k tok, toks !! k = Some tok -> py_str_isspace tok = false ->
     cm1 !! (li, ti0 + Z.of_nat k) = cm2 !! (li, ti0 + Z.of_nat k)) ->
  walk_tokens bf cf cm1 li ti0 y x toks = walk_tokens bf cf cm2 li ti0 y x toks.
Proof.
  revert ti0 x. induction toks as [|t rest IH]; intros ti0 x H; [done|].
  simpl. rewrite (token_step_ext _ _ cm1 cm2).
  - destruct (token_step bf cf cm2 li ti0 y x t) as [[x1 ops1]|]; [|done].
    simpl. rewrite IH; [done|].
    intros k tok Hk Hsp. specialize (H (S k) tok Hk Hsp).
    replace (ti0 + 1 + Z.of_nat k) with (ti0 + Z.of_nat (S k)) by lia. exact H.
  - intros Hsp. specialize (H 0%nat t eq_refl Hsp). by rewrite Z.add_0_r in H.
Qed.

Lemma walk_lines_ext (bf cf : Font) (cm1 cm2 : gmap (Z * Z) str)
    (m ch g lh ls li0 y : Z) (lines : list str) :
  (forall k line kt tok, lines !! k = Some line ->
     tokenize_line line !! kt = Some tok -> py_str_isspace tok = false ->
     cm1 !! (li0 + Z.of_nat k, Z.of_nat kt) = cm2 !! (li0 + Z.of_nat k, Z.of_nat kt)) ->
  walk_lines bf cf cm1 m ch g lh ls li0 y lines =
  walk_lines bf cf cm2 m ch g lh ls li0 y lines.
Proof.
  revert li0 y. induction lines as [|l rest IH]; intros li0 y H; [done|].
  simpl. rewrite (walk_tokens_ext _ _ cm1 cm2).
  - destruct (walk_tokens bf cf cm2 li0 0 y (inject_Z m) (tokenize_line l))
      as [[x1 ops1]|]; [|done].
    simpl. rewrite IH; [done|].
    intros k line kt tok Hk Ht Hsp. specialize (H (S k) line kt tok Hk Ht Hsp).
    replace (li0 + 1 + Z.of_nat k) with (li0 + Z.of_nat (S k)) by lia. exact H.
  - intros kt tok Ht Hsp. specialize (H 0%nat l kt tok eq_refl Ht Hsp).
    by rewrite Z.add_0_r in H.
Qed.

Lemma render_ext (truetype : FontRequest -> option Font) (load_default : Font)
    (lyrics : str) (cm1 cm2 : gmap (Z * Z) str) (cfg : Config) :
  (forall li ti, word_slot lyrics li ti ->
     cm1 !! (Z.of_nat li, Z.of_nat ti) = cm2 !! (Z.of_nat li, Z.of_nat ti)) ->
  render_chorded_lyrics truetype load_default lyrics cm1 cfg =
  render_chorded_lyrics truetype load_default lyrics cm2 cfg.
Proof.
  intros H. unfold render_chorded_lyrics.
  destruct (select_fonts truetype load_default) as [[bf cf] tf].
  unfold render_with_fonts.
  destruct (image_new _ _); [|done]. simpl.
  destruct (draw_title tf _ cfg) as [[y0 title_ops]|]; [|done]. simpl.
  rewrite (walk_lines_ext _ _ cm1 cm2); [done|].
  intros k line kt tok Hk Ht Hsp. simpl.
  apply H. by exists line, tok.
Qed.

(** C3. Orphan chords are silently dropped: an entry whose key
    [(lineIndex, tokenIndex)] names no token of the tokenized lyrics (no
    such line, or no such token on it) has no effect at all on the render:
    the result, success or failure and every drawn text, is the same as
    without that entry. *)
Theorem orphan_chord_dropped (truetype : FontRequest -> option Font)
    (load_default : Font) (lyrics : str) (cm : gmap (Z * Z) str) (cfg : Config)
    (li ti : Z) (v : str) :
  cm !! (li, ti) = Some v ->
  ~ (exists (li' ti' : nat) line tok,
       li = Z.of_nat li' /\ ti = Z.of_nat ti' /\
       splitlines lyrics !! li' = Some line /\ tokenize_line line !! ti' = Some tok) ->
  render_chorded_lyrics truetype load_default lyrics cm cfg =
  render_chorded_lyrics truetype load_default lyrics (delete (li, ti) cm) cfg.
Proof.
  intros _ Hno. apply render_ext.
  intros li' ti' (line & tok & Hl & Ht & _).
  rewrite lookup_delete_ne; [done|].
  intros Heq. injection Heq as E1 E2. apply Hno.
  by exists li', ti', line, tok.
Qed.

Lemma orphan_chord_dropped_witness :
  ({[(0, 5) := of_string "G"]} : gmap (Z * Z) str) !! (0, 5) = Some (of_string "G") /\
  ~ (exists (li' ti' : nat) line tok,
       0 = Z.of_nat li' /\ 5 = Z.of_nat ti' /\
       splitlines (of_string "Hello world") !! li' = Some line /\
       tokenize_line line !! ti' = Some tok) /\
  render_chorded_lyrics fonts_present bitmap_font (of_string "Hello world")
    ({[(0, 5) := of_string "G"]} : gmap (Z * Z) str) default_config =
  render_chorded_lyrics fonts_present bitmap_font (of_string "Hello world")
    (delete (0, 5) ({[(0, 5) := of_string "G"]} : gmap (Z * Z) str)) default_config.
Proof.
  assert (Hk : ({[(0, 5) := of_string "G"]} : gmap (Z * Z) str) !! (0, 5) = Some (of_string "G"))
    by reflexivity.
  assert (Hno : ~ (exists (li' ti' : nat) line tok,
       0 = Z.of_nat li' /\ 5 = Z.of_nat ti' /\
       splitlines (of_string "Hello world") !! li' = Some line /\
       tokenize_line line !! ti' = Some tok)).
  { intros (li' & ti' & line & tok & E1 & E2 & Hl & Ht).
    assert (li' = 0%nat) as -> by lia. assert (ti' = 5%nat) as -> by lia.
    vm_compute in Hl. injection Hl as <-. vm_compute in Ht. discriminate Ht. }
  split; [exact Hk|]. split; [exact Hno|].
  exact (orphan_chord_dropped fonts_present bitmap_font (of_string "Hello world")
           _ default_config 0 5 _ Hk Hno).
Defined.

(** C9. A chord keyed to an existing Space token is ignored exactly like
    an orphan: the whitespace branch never looks the key up, so the render
    is the same as without that entry. *)
Theorem space_slot_chord_ignored (truetype : FontRequest -> option Font)
    (load_default : Font) (lyrics : str) (cm : gmap (Z * Z) str) (cfg : Config)
    (li ti : nat) (line tok v : str) :
  cm !! (Z.of_nat li, Z.of_nat ti) = Some v ->
  splitlines lyrics !! li = Some line ->
  tokenize_line line !! ti = Some tok ->
  py_str_isspace tok = true ->
  render_chorded_lyrics truetype load_default lyrics cm cfg =
  render_chorded_lyrics truetype load_default lyrics
    (delete (Z.of_nat li, Z.of_nat ti) cm) cfg.
Proof.
  intros _ Hl Ht Hsp. apply render_ext.
  intros li' ti' (line' & tok' & Hl' & Ht' & Hsp').
  rewrite lookup_delete_ne; [done|].
  intros Heq. injection Heq as E1 E2.
  apply Nat2Z.inj in E1 as ->. apply Nat2Z.inj in E2 as ->.
  rewrite Hl in Hl'. injection Hl' as <-. rewrite Ht in Ht'.
  injection Ht' as <-. congruence.
Qed.

Lemma space_slot_chord_ignored_witness :
  render_chorded_lyrics fonts_present bitmap_font (of_string "Hello world")
    ({[(0, 1) := of_string "G"]} : gmap (Z * Z) str) default_config =
  render_chorded_lyrics fonts_present bitmap_font (of_string "Hello world")
    (delete (Z.of_nat 0, Z.of_nat 1) ({[(0, 1) := of_string "G"]} : gmap (Z * Z) str)) default_config.
Proof.
  apply (space_slot_chord_ignored _ _ _ _ _ 0 1 (of_string "Hello world")
           (of_string " ") (of_string "G")); reflexivity.
Defined.

(* ------------------------------------------------------------------ *)
(** ** Lyric tokens are single-line *)

Lemma splitlines_tokens_no_line_feed (lyrics : str) :
  Forall (fun line => Forall no_line_feed (tokenize_line line)) (splitlines lyrics).
Proof.
  apply Forall_lookup. intros li line Hl.
  apply Forall_lookup. intros ti tok Ht.
  exact (token_no_line_feed lyrics line tok li ti Hl Ht).
Qed.

(** C5. Cursor advance rule, at any token of any Line of the lyrics with
    the cursor at [x]: a Space token of at most [MAX_STRING_LENGTH]
    characters (a longer one makes [draw.textlength] raise [ValueError])
    draws nothing and moves the cursor by the measured width of the whole
    whitespace run; after a Word token the
    cursor has moved by the word's width plus the width of one space
    character [" "], whatever the following whitespace token is. *)
Theorem cursor_advance (bf cf : Font) (cm : gmap (Z * Z) str) (lyrics : str)
    (li ti : nat) (line tok : str) (y : Z) (x : Q) :
  splitlines lyrics !! li = Some line ->
  tokenize_line line !! ti = Some tok ->
  let rest := drop (S ti) (tokenize_line line) in
  (py_str_isspace tok = true ->
   Z.of_nat (length tok) <= MAX_STRING_LENGTH ->
   walk_tokens bf cf cm (Z.of_nat li) (Z.of_nat ti) y x (tok :: rest) =
   walk_tokens bf cf cm (Z.of_nat li) (Z.of_nat ti + 1) y
               (x + getlength bf tok)%Q rest) /\
  (py_str_isspace tok = false ->
   forall x2 ops,
     walk_tokens bf cf cm (Z.of_nat li) (Z.of_nat ti) y x (tok :: rest) = Some (x2, ops) ->
     exists chord_ops ops2,
       walk_tokens bf cf cm (Z.of_nat li) (Z.of_nat ti + 1) y
         (x + getlength bf tok + getlength bf (of_string " "))%Q rest = Some (x2, ops2) /\
       ops = chord_ops ++ ops2).
Proof.
  intros Hl Ht rest. pose proof (token_no_line_feed _ _ _ _ _ Hl Ht) as Hnl.
  split.
  - intros Hsp Hlen. simpl. unfold token_step.
    rewrite Hsp, (textlength_ok _ _ Hnl (proj2 (Z.leb_le _ _) Hlen)).
    simpl. destruct (walk_tokens _ _ _ _ _ _ _ rest) as [[x2 ops2]|]; done.
  - intros Hsp x2 ops Hw. simpl in Hw.
    destruct (token_step bf cf cm _ _ y x tok) as [[x1 ops1]|] eqn:Hs;
      [|discriminate].
    pose proof (token_step_cursor _ _ _ _ _ _ _ _ _ _ Hs) as Hx1.
    unfold cursor_after in Hx1. rewrite Hsp in Hx1. subst x1.
    simpl in Hw.
    destruct (walk_tokens _ _ _ _ _ _ _ rest) as [[x3 ops3]|] eqn:Hr;
      [|discriminate].
    simpl in Hw. injection Hw as <- <-. by exists ops1, ops3.
Qed.

Lemma cursor_advance_witness :
  let toks := tokenize_line (of_string "Hello  world") in
  walk_tokens mono_font mono_font ∅ (Z.of_nat 0) (Z.of_nat 1) 60 (inject_Z 130)
    (of_string "  " :: drop 2 toks) =
  walk_tokens mono_font mono_font ∅ (Z.of_nat 0) (Z.of_nat 1 + 1) 60
    (inject_Z 130 + getlength mono_font (of_string "  "))%Q (drop 2 toks).
Proof.
  apply (cursor_advance mono_font mono_font ∅ (of_string "Hello  world") 0 1
           (of_string "Hello  world") (of_string "  ") 60 (inject_Z 130));
    try reflexivity.
  vm_compute. intros H. discriminate H.
Defined.

(* ------------------------------------------------------------------ *)
(** ** The chord form: what [chord_map] and [session_state.chords] hold *)

Section Collect.
Variable widget : str -> option str.

Lemma collect_tokens_snd (chords : gmap (Z * Z) str) (li ti : nat)
    (toks : list str) (acc : gmap (Z * Z) str * gmap (Z * Z) str) :
  acc.2 = acc.1 ∪ chords ->
  (collect_tokens widget li ti toks acc).2 =
  (collect_tokens widget li ti toks acc).1 ∪ chords.
Proof.
  revert ti acc. induction toks as [|tok rest IH]; intros ti acc H; [done|].
  simpl. apply IH. destruct (tok_entry widget li ti tok); [|done].
  simpl. by rewrite H, insert_union_l.
Qed.

Lemma collect_lines_snd (chords : gmap (Z * Z) str) (li : nat)
    (lines : list str) (acc : gmap (Z * Z) str * gmap (Z * Z) str) :
  acc.2 = acc.1 ∪ chords ->
  (collect_lines widget li lines acc).2 =
  (collect_lines widget li lines acc).1 ∪ chords.
Proof.
  revert li acc. induction lines as [|line rest IH]; intros li acc H; [done|].
  simpl. apply IH. by apply collect_tokens_snd.
Qed.

Lemma collect_tokens_keep (li ti0 : nat) (toks : list str) acc (k : Z * Z) :
  (forall j, (j < length toks)%nat -> k <> (Z.of_nat li, Z.of_nat (ti0 + j))) ->
  (collect_tokens widget li ti0 toks acc).1 !! k = acc.1 !! k.
Proof.
  revert ti0 acc. induction toks as [|tok rest IH]; intros ti0 acc H; [done|].
  simpl. rewrite IH.
  - destruct (tok_entry widget li ti0 tok); [|done]. simpl.
    apply lookup_insert_ne. intros Heq. apply (H 0%nat); [simpl; lia|].
    by rewrite Nat.add_0_r.
  - intros j Hj. replace (S ti0 + j)%nat with (ti0 + S j)%nat by lia.
    apply H. simpl. lia.
Qed.

Lemma collect_tokens_in (li ti0 : nat) (toks : list str) acc (j : nat)
    (tok v : str) :
  toks !! j = Some tok -> tok_entry widget li (ti0 + j) tok = Some v ->
  (collect_tokens widget li ti0 toks acc).1 !! (Z.of_nat li, Z.of_nat (ti0 + j))
  = Some v.
Proof.
  revert ti0 acc j. induction toks as [|t rest IH]; intros ti0 acc j Hj Hv;
    [done|].
  destruct j as [|j]; simpl in Hj |- *.
  - injection Hj as ->. rewrite Nat.add_0_r in Hv |- *. rewrite Hv.
    rewrite collect_tokens_keep.
    + simpl. apply lookup_insert_eq.
    + intros j' _ Heq. injection Heq as E. lia.
  - replace (ti0 + S j)%nat with (S ti0 + j)%nat in * by lia.
    by apply IH.
Qed.

Lemma collect_tokens_out (li ti0 : nat) (toks : list str) acc (k : Z * Z)
    (v : str) :
  (collect_tokens widget li ti0 toks acc).1 !! k = Some v ->
  acc.1 !! k = Some v \/
  exists j tok, k = (Z.of_nat li, Z.of_nat (ti0 + j)) /\ toks !! j = Some tok /\
    tok_entry widget li (ti0 + j) tok = Some v.
Proof.
  revert ti0 acc. induction toks as [|t rest IH]; intros ti0 acc H; [by left|].
  simpl in H. destruct (IH _ _ H) as [Hacc | (j & tok & -> & Hj & Hv)].
  - destruct (tok_entry widget li ti0 t) as [v'|] eqn:Ht; [|by left].
    simpl in Hacc. destruct (decide (k = (Z.of_nat li, Z.of_nat ti0))) as [->|Hne].
    + rewrite lookup_insert_eq in Hacc. injection Hacc as <-.
      right. exists 0%nat, t. rewrite Nat.add_0_r. done.
    + rewrite lookup_insert_ne in Hacc; [by left|congruence].
  - right. exists (S j), tok.
    replace (ti0 + S j)%nat with (S ti0 + j)%nat by lia. done.
Qed.

Lemma collect_lines_keep (li0 : nat) (lines : list str) acc (k : Z * Z) :
  (forall i, (i < length lines)%nat -> k.1 <> Z.of_nat (li0 + i)) ->
  (collect_lines widget li0 lines acc).1 !! k = acc.1 !! k.
Proof.
  revert li0 acc. induction lines as [|line rest IH]; intros li0 acc H; [done|].
  simpl. rewrite IH.
  - apply collect_tokens_keep. intros j _ ->. apply (H 0%nat); [simpl; lia|].
    simpl. by rewrite Nat.add_0_r.
  - intros i Hi. replace (S li0 + i)%nat with (li0 + S i)%nat by lia.
    apply H. simpl. lia.
Qed.

Lemma collect_lines_in (li0 : nat) (lines : list str) acc (i j : nat)
    (line tok v : str) :
  lines !! i = Some line -> tokenize_line line !! j = Some tok ->
  tok_entry widget (li0 + i) j tok = Some v ->
  (collect_lines widget li0 lines acc).1 !! (Z.of_nat (li0 + i), Z.of_nat j)
  = Some v.
Proof.
  revert li0 acc i. induction lines as [|l rest IH]; intros li0 acc i Hi Hj Hv;
    [done|].
  destruct i as [|i]; simpl in Hi |- *.
  - injection Hi as ->. rewrite Nat.add_0_r in Hv |- *.
    rewrite collect_lines_keep.
    + apply (collect_tokens_in li0 0 _ _ j tok v Hj Hv).
    + intros i' _ Heq. simpl in Heq. lia.
  - replace (li0 + S i)%nat with (S li0 + i)%nat in * by lia.
    by apply IH.
Qed.

Lemma collect_lines_out (li0 : nat) (lines : list str) acc (k : Z * Z)
    (v : str) :
  (collect_lines widget li0 lines acc).1 !! k = Some v ->
  acc.1 !! k = Some v \/
  exists i j line tok, k = (Z.of_nat (li0 + i), Z.of_nat j) /\
    lines !! i = Some line /\ tokenize_line line !! j = Some tok /\
    tok_entry widget (li0 + i) j tok = Some v.
Proof.
  revert li0 acc. induction lines as [|l rest IH]; intros li0 acc H; [by left|].
  simpl in H. destruct (IH _ _ H) as [Hacc | (i & j & line & tok & -> & Hi & Hj & Hv)].
  - destruct (collect_tokens_out _ _ _ _ _ _ Hacc) as [H0 | (j & tok & -> & Hj & Hv)];
      [by left|].
    right. exists 0%nat, j, l, tok. rewrite !Nat.add_0_r. done.
  - right. exists (S i), j, line, tok.
    replace (li0 + S i)%nat with (S li0 + i)%nat by lia. done.
Qed.

Lemma collect_chord_map_lookup (lyrics : str) (chords : gmap (Z * Z) str)
    (k : Z * Z) (v : str) :
  (collect_chord_map widget lyrics chords).1 !! k = Some v <->
  exists li ti line tok, k = (Z.of_nat li, Z.of_nat ti) /\
    splitlines lyrics !! li = Some line /\ tokenize_line line !! ti = Some tok /\
    tok_entry widget li ti tok = Some v.
Proof.
  unfold collect_chord_map. split.
  - intros H. destruct (collect_lines_out _ _ _ _ _ H) as [H0 | H1]; [done|].
    exact H1.
  - intros (li & ti & line & tok & -> & Hl & Ht & Hv).
    exact (collect_lines_in 0 _ _ li ti line tok v Hl Ht Hv).
Qed.

Lemma tok_entry_some (li ti : nat) (tok v : str) :
  tok_entry widget li ti tok = Some v <->
  py_str_isspace tok = false /\
  py_strip (default [] (widget (key_name li ti))) = v /\ v <> [].
Proof.
  unfold tok_entry. destruct (py_str_isspace tok); [naive_solver|].
  destruct (py_strip _) as [|c r]; naive_solver.
Qed.
End Collect.

Lemma lstrip_suffix (s : str) : exists p, s = p ++ lstrip s.
Proof.
  induction s as [|c r IH]; [by exists []|]. simpl.
  destruct (py_isspace c); [|by exists []].
  destruct IH as [p Hp]. exists (c :: p). simpl. by rewrite <- Hp.
Qed.

Lemma lstrip_head (s : str) (c : N) :
  head (lstrip s) = Some c -> py_isspace c = false.
Proof.
  induction s as [|d r IH]; [done|]. simpl.
  destruct (py_isspace d) eqn:E; [exact IH|]. simpl. by intros [= <-].
Qed.

Lemma head_rev (l : str) : head (rev l) = last l.
Proof.
  destruct l as [|x l _] using rev_ind; [done|].
  by rewrite rev_app_distr, last_snoc.
Qed.

Lemma last_rev (l : str) : last (rev l) = head l.
Proof. destruct l as [|x l]; [done|]. simpl. by rewrite last_snoc. Qed.

Lemma py_strip_ends (s : str) :
  (forall c, head (py_strip s) = Some c -> py_isspace c = false) /\
  (forall c, last (py_strip s) = Some c -> py_isspace c = false).
Proof.
  unfold py_strip. split; intros c Hc.
  - rewrite head_rev in Hc.
    destruct (lstrip_suffix (rev (lstrip s))) as [p Hp].
    assert (Hl : last (rev (lstrip s)) = Some c).
    { rewrite Hp, last_app, Hc. done. }
    rewrite last_rev in Hl. exact (lstrip_head _ _ Hl).
  - rewrite last_rev in Hc. exact (lstrip_head _ _ Hc).
Qed.

(** Digit strings of [str(n)] never contain ['_']. *)
Lemma uint_digits_no_underscore (d : Decimal.uint) :
  Forall (fun c => c <> 95%N) (uint_digits d).
Proof. induction d; simpl; constructor; try done; discriminate. Qed.

Lemma uint_digits_inj (d d' : Decimal.uint) :
  uint_digits d = uint_digits d' -> d = d'.
Proof.
  revert d'. induction d; intros d'; destruct d'; simpl; intros H;
    try discriminate H; try reflexivity;
    injection H as H; f_equal; auto.
Qed.

Lemma split_at_underscore (a c x y : str) :
  Forall (fun ch => ch <> 95%N) a -> Forall (fun ch => ch <> 95%N) c ->
  a ++ 95%N :: x = c ++ 95%N :: y -> a = c /\ x = y.
Proof.
  revert c. induction a as [|ha a IH]; intros c Ha Hc H; destruct c as [|hc c];
    simpl in H.
  - by injection H.
  - injection H as <- _. inversion Hc; congruence.
  - injection H as -> _. inversion Ha; congruence.
  - injection H as <- H. inversion Ha; inversion Hc; subst.
    destruct (IH c) as [-> ->]; done.
Qed.

(** X1. The [chord_map] built by the Render button (lines 97-108) holds
    exactly one entry per Word slot of the lyrics whose text field, once
    stripped, is non-empty: the key is [(li, ti)], the value is the stripped
    field text. The chords stored earlier in the session play no part. *)
Theorem chord_map_entries (widget : str -> option str) (lyrics : str)
    (chords : gmap (Z * Z) str) (k : Z * Z) (v : str) :
  (collect_chord_map widget lyrics chords).1 !! k = Some v <->
  exists li ti, k = (Z.of_nat li, Z.of_nat ti) /\ word_slot lyrics li ti /\
    py_strip (default [] (widget (key_name li ti))) = v /\ v <> [].
Proof.
  rewrite collect_chord_map_lookup. split.
  - intros (li & ti & line & tok & -> & Hl & Ht & Hv).
    apply tok_entry_some in Hv as (Hsp & Hs & Hne).
    exists li, ti. split; [done|]. split; [by exists line, tok|]. done.
  - intros (li & ti & -> & (line & tok & Hl & Ht & Hsp) & Hs & Hne).
    exists li, ti, line, tok. repeat split; try done.
    by apply tok_entry_some.
Qed.

(** X2. After the Render button, [st.session_state.chords] is the new
    [chord_map] laid over the chords stored before: a slot whose field is
    now blank keeps its old stored chord, and no stored chord is ever
    removed. *)
Theorem session_chords_union (widget : str -> option str) (lyrics : str)
    (chords : gmap (Z * Z) str) :
  (collect_chord_map widget lyrics chords).2 =
  (collect_chord_map widget lyrics chords).1 ∪ chords.
Proof.
  apply collect_lines_snd. simpl. by rewrite (left_id_L ∅ (∪)).
Qed.

(** X3. Every chord label the Render button collects is non-empty and
    neither starts nor ends with a whitespace character. *)
Theorem chord_map_values_stripped (widget : str -> option str) (lyrics : str)
    (chords : gmap (Z * Z) str) (k : Z * Z) (v : str) :
  (collect_chord_map widget lyrics chords).1 !! k = Some v ->
  v <> [] /\ (forall c, head v = Some c -> py_isspace c = false) /\
  (forall c, last v = Some c -> py_isspace c = false).
Proof.
  intros H. apply collect_chord_map_lookup in H
    as (li & ti & line & tok & -> & Hl & Ht & Hv).
  apply tok_entry_some in Hv as (_ & <- & Hne).
  split; [done|]. apply py_strip_ends.
Qed.

Lemma chord_map_values_stripped_witness :
  let widget := fun k => if decide (k = key_name 0 0) then Some (of_string " C ")
                         else None in
  (collect_chord_map widget (of_string "Guide me") ∅).1 !! (0, 0)
    = Some (of_string "C") /\
  (of_string "C" <> [] /\
   (forall c, head (of_string "C") = Some c -> py_isspace c = false) /\
   (forall c, last (of_string "C") = Some c -> py_isspace c = false)).
Proof.
  intros widget.
  assert (H : (collect_chord_map widget (of_string "Guide me") ∅).1 !! (0, 0)
              = Some (of_string "C")) by reflexivity.
  split; [exact H|].
  exact (chord_map_values_stripped widget (of_string "Guide me") ∅ (0, 0) _ H).
Defined.

(** X4. The widget keys [f"li{li}_ti{ti}"] (lines 89 and 104) of two
    distinct slots are distinct strings, so no two text fields share a key. *)
Theorem key_name_injective (li ti li' ti' : nat) :
  key_name li ti = key_name li' ti' -> li = li' /\ ti = ti'.
Proof.
  unfold key_name, py_str_int. cbn [of_string app]. intros H.
  injection H as H.
  destruct (split_at_underscore _ _ _ _ (uint_digits_no_underscore _)
              (uint_digits_no_underscore _) H) as [H1 H2].
  injection H2 as H2.
  split; apply DecimalNat.Unsigned.to_uint_inj, uint_digits_inj; assumption.
Qed.

Lemma key_name_injective_witness :
  key_name 1 12 = key_name 1 12 /\ (1 = 1 /\ 12 = 12)%nat.
Proof.
  split; [reflexivity|]. apply (key_name_injective 1 12 1 12). reflexivity.
Defined.

(* ------------------------------------------------------------------ *)
(** ** The page layout: rows, title and what is drawn *)

Lemma walk_lines_row (bf cf : Font) (cm : gmap (Z * Z) str)
    (m ch g lh ls li0 y : Z) (lines : list str) ops (k : nat) (line : str) :
  walk_lines bf cf cm m ch g lh ls li0 y lines = Some ops ->
  lines !! k = Some line ->
  exists x' ops',
    walk_tokens bf cf cm (li0 + Z.of_nat k) 0 (y + Z.of_nat k * (ch + g + lh + ls))
                (inject_Z m) (tokenize_line line) = Some (x', ops') /\
    (forall o, In o ops' -> In o ops) /\
    In (DrawText (inject_Z m) (inject_Z (y + Z.of_nat k * (ch + g + lh + ls) + ch + g))
                 line bf) ops.
Proof.
  revert li0 y ops k. induction lines as [|l rest IH];
    intros li0 y ops k Hw Hk; [done|].
  simpl in Hw.
  destruct (walk_tokens bf cf cm li0 0 y (inject_Z m) (tokenize_line l))
    as [[x1 ops1]|] eqn:Ht; [|discriminate]. simpl in Hw.
  destruct (draw_text _ _ l bf) as [lop|] eqn:Hd; [|discriminate]. simpl in Hw.
  apply draw_text_some in Hd as [-> _].
  destruct (walk_lines bf cf cm m ch g lh ls (li0 + 1) (y + ch + g + lh + ls) rest)
    as [ops2|] eqn:Hr; [|discriminate]. simpl in Hw. injection Hw as <-.
  destruct k as [|k]; simpl in Hk.
  - injection Hk as ->. exists x1, ops1.
    replace (li0 + Z.of_nat 0) with li0 by lia.
    replace (y + Z.of_nat 0 * (ch + g + lh + ls)) with y by lia.
    split; [exact Ht|]. split.
    + intros o Ho. apply in_or_app. by left.
    + apply in_or_app. right. by left.
  - destruct (IH _ _ _ _ Hr Hk) as (x' & ops' & Hw' & Hincl & Hline).
    exists x', ops'.
    replace (li0 + Z.of_nat (S k)) with (li0 + 1 + Z.of_nat k) by lia.
    replace (y + Z.of_nat (S k) * (ch + g + lh + ls))
      with (y + ch + g + lh + ls + Z.of_nat k * (ch + g + lh + ls)) by lia.
    split; [exact Hw'|]. split.
    + intros o Ho. apply in_or_app. right. right. by apply Hincl.
    + apply in_or_app. right. by right.
Qed.

Lemma walk_tokens_ops (bf cf : Font) (cm : gmap (Z * Z) str)
    (li ti0 y : Z) (x x' : Q) (toks : list str) ops (o : DrawOp) :
  walk_tokens bf cf cm li ti0 y x toks = Some (x', ops) -> In o ops ->
  exists k tok lab, toks !! k = Some tok /\ py_str_isspace tok = false /\
    cm !! (li, ti0 + Z.of_nat k) = Some lab /\
    o = DrawText (fold_left (cursor_after bf) (take k toks) x
                  + (getlength bf tok - getlength cf lab) / 2)%Q
                 (inject_Z y) lab cf.
Proof.
  revert ti0 x x' ops. induction toks as [|t rest IH];
    intros ti0 x x' ops Hw Ho.
  { simpl in Hw. injection Hw as _ <-. done. }
  simpl in Hw.
  destruct (token_step bf cf cm li ti0 y x t) as [[x1 ops1]|] eqn:Hs;
    [|discriminate]. simpl in Hw.
  destruct (walk_tokens bf cf cm li (ti0 + 1) y x1 rest) as [[x2 ops2]|] eqn:Hr;
    [|discriminate]. simpl in Hw. injection Hw as <- <-.
  apply in_app_or in Ho as [Ho|Ho].
  - exists 0%nat, t. unfold token_step in Hs.
    destruct (py_str_isspace t) eqn:Hsp; simplify_option_eq; [done|].
    destruct (cm !! (li, ti0)) as [lab|] eqn:Hlab; simplify_option_eq; [|done].
    measured.
    destruct Ho as [<-|[]]. exists lab. rewrite Z.add_0_r. done.
  - destruct (IH _ _ _ _ Hr Ho) as (k & tok & lab & Hk & Hsp & Hlab & ->).
    exists (S k), tok, lab. split; [done|]. split; [done|]. split.
    + rewrite <- Hlab. do 2 f_equal. lia.
    + simpl. by rewrite <- (token_step_cursor _ _ _ _ _ _ _ _ _ _ Hs).
Qed.

Lemma walk_lines_ops (bf cf : Font) (cm : gmap (Z * Z) str)
    (m ch g lh ls li0 y : Z) (lines : list str) ops (o : DrawOp) :
  walk_lines bf cf cm m ch g lh ls li0 y lines = Some ops -> In o ops ->
  exists k line, lines !! k = Some line /\
    (o = DrawText (inject_Z m) (inject_Z (y + Z.of_nat k * (ch + g + lh + ls) + ch + g))
                  line bf \/
     exists ti tok lab, tokenize_line line !! ti = Some tok /\
       py_str_isspace tok = false /\
       cm !! (li0 + Z.of_nat k, Z.of_nat ti) = Some lab /\
       o = DrawText (fold_left (cursor_after bf) (take ti (tokenize_line line))
                               (inject_Z m)
                     + (getlength bf tok - getlength cf lab) / 2)%Q
                    (inject_Z (y + Z.of_nat k * (ch + g + lh + ls))) lab cf).
Proof.
  revert li0 y ops. induction lines as [|l rest IH]; intros li0 y ops Hw Ho.
  { simpl in Hw. injection Hw as <-. done. }
  simpl in Hw.
  destruct (walk_tokens bf cf cm li0 0 y (inject_Z m) (tokenize_line l))
    as [[x1 ops1]|] eqn:Ht; [|discriminate]. simpl in Hw.
  destruct (draw_text _ _ l bf) as [lop|] eqn:Hd; [|discriminate]. simpl in Hw.
  apply draw_text_some in Hd as [-> _].
  destruct (walk_lines bf cf cm m ch g lh ls (li0 + 1) (y + ch + g + lh + ls) rest)
    as [ops2|] eqn:Hr; [|discriminate]. simpl in Hw. injection Hw as <-.
  apply in_app_or in Ho as [Ho|[<-|Ho]].
  - destruct (walk_tokens_ops _ _ _ _ _ _ _ _ _ _ _ Ht Ho)
      as (ti & tok & lab & Hti & Hsp & Hlab & ->).
    exists 0%nat, l. split; [done|]. right. exists ti, tok, lab.
    split; [done|]. split; [done|]. split.
    + rewrite <- Hlab. do 2 f_equal; lia.
    + do 2 f_equal. lia.
  - exists 0%nat, l. split; [done|]. left. do 3 f_equal. lia.
  - destruct (IH _ _ _ Hr Ho) as (k & line & Hk & [->|(ti & tok & lab & Hti & Hsp & Hlab & ->)]).
    + exists (S k), line. split; [done|]. left. do 3 f_equal. lia.
    + exists (S k), line. split; [done|]. right. exists ti, tok, lab.
      split; [done|]. split; [done|]. split.
      * rewrite <- Hlab. do 2 f_equal; lia.
      * do 2 f_equal. lia.
Qed.

Lemma draw_title_ops (tf : Font) (h : Z) (cfg : Config) (y0 : Z) tops :
  draw_title tf (if title_given (title cfg) then h else 0) cfg = Some (y0, tops) ->
  y0 = margin cfg + (if title_given (title cfg) then h else 0) /\
  ((title_given (title cfg) = false /\ tops = []) \/
   exists t, title cfg = Some t /\ title_given (title cfg) = true /\
     tops = [DrawText (inject_Z (Qfloor ((inject_Z (page_width cfg)
                                           - getlength tf t) / 2)%Q))
                      (inject_Z (margin cfg)) t tf]).
Proof.
  unfold draw_title. destruct (title cfg) as [t|] eqn:Ht.
  - destruct (title_given (Some t)) eqn:Hg.
    + destruct (textlength t tf) as [tw|] eqn:Htw; [|discriminate].
      apply textlength_some in Htw as ->. simpl.
      destruct (draw_text _ _ t tf) as [o|] eqn:Hd; [|discriminate].
      apply draw_text_some in Hd as [-> _]. intros [= <- <-].
      split; [done|]. right. by exists t.
    + intros [= <- <-]. split; [lia|]. by left.
  - intros [= <- <-]. split; [simpl; lia|]. by left.
Qed.

Lemma render_with_fonts_ops (bf cf tf : Font) (cm : gmap (Z * Z) str)
    (lyrics : str) (cfg : Config) (cv : Canvas) :
  render_with_fonts bf cf tf cm lyrics cfg = Some cv ->
  exists title_ops body,
    draw_title tf (if title_given (title cfg) then textheight tf + 20 else 0) cfg
      = Some (margin cfg + (if title_given (title cfg) then textheight tf + 20 else 0),
              title_ops) /\
    walk_lines bf cf cm (margin cfg) (textheight cf) (chord_gap cfg)
               (textheight bf) (line_spacing cfg) 0
               (margin cfg + (if title_given (title cfg) then textheight tf + 20 else 0))
               (splitlines lyrics) = Some body /\
    cv_ops cv = title_ops ++ body.
Proof.
  unfold render_with_fonts. intros H.
  destruct (image_new _ _) as [img|] eqn:Himg; [|discriminate]. simpl in H.
  apply image_new_some in Himg as [-> _].
  destruct (draw_title tf _ cfg) as [[y0 title_ops]|] eqn:Hd; [|discriminate].
  simpl in H.
  destruct (draw_title_ops _ _ _ _ _ Hd) as [-> _].
  destruct (walk_lines _ _ _ _ _ _ _ _ _ _ _) as [body|] eqn:Hb;
    [|discriminate]. simpl in H. injection H as <-.
  by exists title_ops, body.
Qed.

(* ------------------------------------------------------------------ *)
(** ** When the render fails *)

Lemma textlength_no_line_feed (t : str) (f : Font) (w : Q) :
  textlength t f = Some w -> ~ In 10%N t.
Proof.
  unfold textlength. destruct (existsb (N.eqb 10) t) eqn:E; [done|].
  intros _ Hin. assert (existsb (N.eqb 10) t = true) as E'.
  { apply existsb_exists. exists 10%N. split; [done|]. apply N.eqb_refl. }
  congruence.
Qed.

Lemma textlength_none (t : str) (f : Font) :
  textlength t f = None -> In 10%N t \/ string_length_ok t = false.
Proof.
  unfold textlength. destruct (existsb (N.eqb 10) t) eqn:E.
  - intros _. left. apply existsb_exists in E as (c & Hin & Hc).
    by apply N.eqb_eq in Hc as ->.
  - destruct (string_length_ok t); [done|]. by right.
Qed.

Lemma text_fits_length (f : Font) (x : Q) (t : str) :
  string_length_ok t = false -> text_fits f x t = false.
Proof. unfold text_fits. by intros ->. Qed.

Lemma draw_text_none (x y : Q) (t : str) (f : Font) :
  draw_text x y t f = None -> text_fits f x t = false.
Proof. unfold draw_text. by destruct (text_fits f x t). Qed.

Lemma length_le_concat (l : list str) (t : str) :
  In t l -> (length t <= length (concat l))%nat.
Proof.
  induction l as [|u l IH]; [done|]. simpl. rewrite length_app.
  intros [<-|H]; [lia|]. specialize (IH H). lia.
Qed.

(** A token over [MAX_STRING_LENGTH] lies in a Line over it. *)
Lemma token_too_long (line tok : str) (ti : nat) :
  tokenize_line line !! ti = Some tok -> string_length_ok tok = false ->
  string_length_ok line = false.
Proof.
  intros Ht Hlong. destruct (tokenize_line_partition line) as [Hc _].
  apply list_elem_of_lookup_2, list_elem_of_In, length_le_concat in Ht.
  rewrite Hc in Ht. unfold string_length_ok in *.
  apply Z.leb_gt in Hlong. apply Z.leb_gt. lia.
Qed.

Lemma textlength_space (f : Font) :
  textlength (of_string " ") f = Some (getlength f (of_string " ")).
Proof. reflexivity. Qed.

Lemma walk_tokens_fail (bf cf : Font) (cm : gmap (Z * Z) str)
    (li ti0 y : Z) (x : Q) (toks : list str) :
  Forall no_line_feed toks ->
  walk_tokens bf cf cm li ti0 y x toks = None ->
  exists k tok, toks !! k = Some tok /\
    (string_length_ok tok = false \/
     (py_str_isspace tok = false /\
      exists lab, cm !! (li, ti0 + Z.of_nat k) = Some lab /\
        (In 10%N lab \/
         text_fits cf (fold_left (cursor_after bf) (take k toks) x
                       + (getlength bf tok - getlength cf lab) / 2)%Q lab = false))).
Proof.
  intros Hall. revert ti0 x.
  induction Hall as [|t rest Ht Hrest IH]; intros ti0 x Hw; [done|].
  simpl in Hw.
  destruct (token_step bf cf cm li ti0 y x t) as [[x1 ops1]|] eqn:Hs.
  - simpl in Hw.
    destruct (walk_tokens bf cf cm li (ti0 + 1) y x1 rest) as [[x2 ops2]|] eqn:Hr;
      [discriminate|].
    rewrite (token_step_cursor _ _ _ _ _ _ _ _ _ _ Hs) in Hr.
    destruct (IH _ _ Hr) as (k & tok & Hk & Hfail).
    exists (S k), tok. split; [done|].
    destruct Hfail as [Hl|(Hsp & lab & Hlab & Hf)]; [by left|].
    right. split; [done|]. exists lab. split; [|done].
    rewrite <- Hlab. do 2 f_equal. lia.
  - exists 0%nat, t. split; [done|].
    destruct (string_length_ok t) eqn:Hlen; [|by left]. right.
    unfold token_step in Hs. rewrite (textlength_ok t bf Ht Hlen) in Hs.
    destruct (py_str_isspace t) eqn:Hsp; [discriminate|].
    split; [done|].
    destruct (cm !! (li, ti0)) as [lab|] eqn:Hlab.
    2:{ simpl in Hs. rewrite ?textlength_space in Hs. discriminate. }
    exists lab. rewrite Z.add_0_r. split; [done|]. cbn [take fold_left].
    destruct (textlength lab cf) as [cw|] eqn:Hc.
    + apply textlength_some in Hc as ->.
      destruct (draw_text (x + (getlength bf t - getlength cf lab) / 2)%Q
                  (inject_Z y) lab cf) eqn:Hd.
      { simpl in Hs. rewrite Hd in Hs. simpl in Hs.
        rewrite ?textlength_space in Hs. discriminate. }
      right. exact (draw_text_none _ _ _ _ Hd).
    + apply textlength_none in Hc as [Hc|Hc]; [by left|].
      right. by apply text_fits_length.
Qed.

Lemma walk_lines_fail (bf cf : Font) (cm : gmap (Z * Z) str)
    (m ch g lh ls li0 y : Z) (lines : list str) :
  Forall (fun line => Forall no_line_feed (tokenize_line line)) lines ->
  walk_lines bf cf cm m ch g lh ls li0 y lines = None ->
  exists k line, lines !! k = Some line /\
    (text_fits bf (inject_Z m) line = false \/
     exists ti tok lab, tokenize_line line !! ti = Some tok /\
       py_str_isspace tok = false /\
       cm !! (li0 + Z.of_nat k, Z.of_nat ti) = Some lab /\
       (In 10%N lab \/
        text_fits cf (fold_left (cursor_after bf) (take ti (tokenize_line line))
                                (inject_Z m)
                      + (getlength bf tok - getlength cf lab) / 2)%Q lab = false)).
Proof.
  intros Hall. revert li0 y.
  induction Hall as [|l rest Hl Hrest IH]; intros li0 y Hw; [done|].
  simpl in Hw.
  destruct (walk_tokens bf cf cm li0 0 y (inject_Z m) (tokenize_line l))
    as [[x1 ops1]|] eqn:Ht.
  - simpl in Hw.
    destruct (draw_text _ _ l bf) as [lop|] eqn:Hd.
    + simpl in Hw.
      destruct (walk_lines bf cf cm m ch g lh ls (li0 + 1) (y + ch + g + lh + ls) rest)
        eqn:Hr; [discriminate|].
      destruct (IH _ _ Hr)
        as (k & line & Hk & [Hf|(ti & tok & lab & Hti & Hsp & Hlab & Hf)]).
      * exists (S k), line. split; [done|]. by left.
      * exists (S k), line. split; [done|]. right. exists ti, tok, lab.
        split; [done|]. split; [done|]. split; [|done].
        rewrite <- Hlab. do 2 f_equal. lia.
    + exists 0%nat, l. split; [done|]. left. exact (draw_text_none _ _ _ _ Hd).
  - destruct (walk_tokens_fail _ _ _ _ _ _ _ _ Hl Ht)
      as (ti & tok & Hti & [Hlong|(Hsp & lab & Hlab & Hf)]).
    + exists 0%nat, l. split; [done|]. left.
      apply text_fits_length. exact (token_too_long _ _ _ Hti Hlong).
    + exists 0%nat, l. split; [done|]. right. exists ti, tok, lab.
      split; [done|]. split; [done|]. split; [|done].
      rewrite <- Hlab. do 2 f_equal; lia.
Qed.

Lemma walk_tokens_label_fits (bf cf : Font) (cm : gmap (Z * Z) str)
    (li ti0 y : Z) (x x' : Q) (toks : list str) ops (k : nat) (tok lab : str) :
  walk_tokens bf cf cm li ti0 y x toks = Some (x', ops) ->
  toks !! k = Some tok -> py_str_isspace tok = false ->
  cm !! (li, ti0 + Z.of_nat k) = Some lab ->
  ~ In 10%N lab /\
  text_fits cf (fold_left (cursor_after bf) (take k toks) x
                + (getlength bf tok - getlength cf lab) / 2)%Q lab = true.
Proof.
  revert ti0 x x' ops k. induction toks as [|t rest IH];
    intros ti0 x x' ops k Hw Hk Hsp Hlab; [done|].
  simpl in Hw.
  destruct (token_step bf cf cm li ti0 y x t) as [[x1 ops1]|] eqn:Hs;
    [|discriminate]. simpl in Hw.
  destruct (walk_tokens bf cf cm li (ti0 + 1) y x1 rest) as [[x2 ops2]|] eqn:Hr;
    [|discriminate].
  destruct k as [|k]; simpl in Hk.
  - injection Hk as ->. rewrite Z.add_0_r in Hlab.
    unfold token_step in Hs. rewrite Hsp, Hlab in Hs.
    destruct (textlength tok bf) as [tw|] eqn:Htw; [|discriminate]. simpl in Hs.
    destruct (textlength lab cf) as [cw|] eqn:Hc; [|discriminate]. simpl in Hs.
    destruct (draw_text _ _ lab cf) as [o|] eqn:Hd; [|discriminate].
    split; [exact (textlength_no_line_feed _ _ _ Hc)|].
    apply textlength_some in Htw as ->. apply textlength_some in Hc as ->.
    apply draw_text_some in Hd as [_ Hf]. exact Hf.
  - cbn [take fold_left]. rewrite <- (token_step_cursor _ _ _ _ _ _ _ _ _ _ Hs).
    eapply IH; [exact Hr | exact Hk | exact Hsp |].
    rewrite <- Hlab. do 2 f_equal. lia.
Qed.

Lemma walk_lines_fits (bf cf : Font) (cm : gmap (Z * Z) str)
    (m ch g lh ls li0 y : Z) (lines : list str) ops (k : nat) (line : str) :
  walk_lines bf cf cm m ch g lh ls li0 y lines = Some ops ->
  lines !! k = Some line -> text_fits bf (inject_Z m) line = true.
Proof.
  revert li0 y ops k. induction lines as [|l rest IH];
    intros li0 y ops k Hw Hk; [done|].
  simpl in Hw.
  destruct (walk_tokens bf cf cm li0 0 y (inject_Z m) (tokenize_line l))
    as [[x1 ops1]|] eqn:Ht; [|discriminate]. simpl in Hw.
  destruct (draw_text _ _ l bf) as [lop|] eqn:Hd; [|discriminate]. simpl in Hw.
  destruct (walk_lines bf cf cm m ch g lh ls (li0 + 1) (y + ch + g + lh + ls) rest)
    as [ops2|] eqn:Hr; [|discriminate].
  destruct k as [|k]; simpl in Hk.
  - injection Hk as ->. by apply draw_text_some in Hd as [_ Hf].
  - exact (IH _ _ _ _ Hr Hk).
Qed.

Lemma draw_title_fits (tf : Font) (h : Z) (cfg : Config) (y0 : Z) tops (t : str) :
  draw_title tf h cfg = Some (y0, tops) -> title cfg = Some t -> t <> [] ->
  ~ In 10%N t /\
  text_fits tf (inject_Z (Qfloor ((inject_Z (page_width cfg) - getlength tf t) / 2)%Q))
            t = true.
Proof.
  unfold draw_title. intros Hd Ht Hne. rewrite Ht in Hd.
  destruct t as [|c t']; [done|]. cbn [title_given] in Hd.
  destruct (textlength (c :: t') tf) as [tw|] eqn:Htw; [|discriminate]. simpl in Hd.
  destruct (draw_text _ _ (c :: t') tf) as [o|] eqn:Hdt; [|discriminate].
  split; [exact (textlength_no_line_feed _ _ _ Htw)|].
  apply textlength_some in Htw as ->. by apply draw_text_some in Hdt as [_ Hf].
Qed.

Lemma draw_title_fail (tf : Font) (h : Z) (cfg : Config) :
  draw_title tf h cfg = None ->
  exists t, title cfg = Some t /\ t <> [] /\
    (In 10%N t \/
     text_fits tf (inject_Z (Qfloor ((inject_Z (page_width cfg) - getlength tf t) / 2)%Q))
               t = false).
Proof.
  unfold draw_title. destruct (title cfg) as [[|c t']|]; intros Hd;
    [discriminate Hd | | discriminate Hd].
  cbn [title_given] in Hd. exists (c :: t'). split; [done|]. split; [done|].
  destruct (textlength (c :: t') tf) as [tw|] eqn:Htw.
  - apply textlength_some in Htw as ->. simpl in Hd. right.
    destruct (draw_text _ _ (c :: t') tf) eqn:Hdt; [discriminate Hd|].
    exact (draw_text_none _ _ _ _ Hdt).
  - apply textlength_none in Htw as [H|H]; [by left|]. right. by apply text_fits_length.
Qed.

Lemma render_with_fonts_size (bf cf tf : Font) (cm : gmap (Z * Z) str)
    (lyrics : str) (cfg : Config) (cv : Canvas) :
  render_with_fonts bf cf tf cm lyrics cfg = Some cv ->
  0 <= page_width cfg <= INT_MAX / 4 - 1 /\
  0 <= margin cfg + (if title_given (title cfg) then textheight tf + 20 else 0)
       + (textheight bf + textheight cf + chord_gap cfg + line_spacing cfg)
         * Z.of_nat (length (splitlines lyrics))
       + margin cfg <= INT_MAX.
Proof.
  unfold render_with_fonts. intros H.
  destruct (image_new _ _) as [img|] eqn:Himg; [|discriminate].
  by apply image_new_some in Himg as [_ Hb].
Qed.

(** The render fails exactly when one of Pillow's checks does: [Image.new]
    on the canvas size, [textlength] and [draw.text] on the title, each
    Line, and each chord label keyed to a Word slot. *)
Lemma render_with_fonts_none (bf cf tf : Font) (cm : gmap (Z * Z) str)
    (lyrics : str) (cfg : Config) :
  render_with_fonts bf cf tf cm lyrics cfg = None <->
  page_width cfg < 0 \/ INT_MAX / 4 - 1 < page_width cfg \/
  margin cfg + (if title_given (title cfg) then textheight tf + 20 else 0)
    + (textheight bf + textheight cf + chord_gap cfg + line_spacing cfg)
      * Z.of_nat (length (splitlines lyrics))
    + margin cfg < 0 \/
  INT_MAX < margin cfg + (if title_given (title cfg) then textheight tf + 20 else 0)
    + (textheight bf + textheight cf + chord_gap cfg + line_spacing cfg)
      * Z.of_nat (length (splitlines lyrics))
    + margin cfg \/
  (exists t, title cfg = Some t /\ t <> [] /\
     (In 10%N t \/
      text_fits tf (inject_Z (Qfloor ((inject_Z (page_width cfg)
                                       - getlength tf t) / 2)%Q)) t = false)) \/
  (exists li line, splitlines lyrics !! li = Some line /\
     text_fits bf (inject_Z (margin cfg)) line = false) \/
  (exists li ti line tok lab, splitlines lyrics !! li = Some line /\
     tokenize_line line !! ti = Some tok /\ py_str_isspace tok = false /\
     cm !! (Z.of_nat li, Z.of_nat ti) = Some lab /\
     (In 10%N lab \/
      text_fits cf (word_left bf cfg line ti
                    + (getlength bf tok - getlength cf lab) / 2)%Q lab = false)).
Proof.
  split.
  - unfold render_with_fonts. cbv zeta. intros H.
    destruct (image_new _ _) as [img|] eqn:Himg.
    2:{ apply image_new_none in Himg.
        match type of Himg with ~ (_ /\ 0 <= ?h <= _) => set (T := h) in * end.
        assert (page_width cfg < 0 \/ INT_MAX / 4 - 1 < page_width cfg \/
                T < 0 \/ INT_MAX < T) as Hc by lia.
        destruct Hc as [?|[?|[?|?]]]; auto. }
    simpl in H.
    destruct (draw_title tf _ cfg) as [[y0 tops]|] eqn:Hd.
    + simpl in H.
      destruct (walk_lines _ _ _ _ _ _ _ _ _ _ _) eqn:Hb; [discriminate|].
      apply walk_lines_fail in Hb; [|apply splitlines_tokens_no_line_feed].
      destruct Hb as (k & line & Hk & [Hf|(ti & tok & lab & Hti & Hsp & Hlab & Hf)]).
      * do 5 right. left. by exists k, line.
      * do 6 right. exists k, ti, line, tok, lab.
        split; [done|]. split; [done|]. split; [done|]. split; [|exact Hf].
        rewrite <- Hlab. do 2 f_equal; lia.
    + do 4 right. left. exact (draw_title_fail _ _ _ Hd).
  - intros Hcase. destruct (render_with_fonts bf cf tf cm lyrics cfg)
      as [cv|] eqn:Hr; [exfalso|done].
    destruct (render_with_fonts_size _ _ _ _ _ _ _ Hr) as [Hpw Hh].
    destruct (render_with_fonts_ops _ _ _ _ _ _ _ Hr)
      as (title_ops & body & Hd & Hb & _).
    destruct Hcase as [Hc|[Hc|[Hc|[Hc|[(t & Ht & Hne & Hf)|[(li & line & Hl & Hf)|
      (li & ti & line & tok & lab & Hl & Hti & Hsp & Hlab & Hf)]]]]]]; try lia.
    + destruct (draw_title_fits _ _ _ _ _ _ Hd Ht Hne) as [Hnl Hfit].
      destruct Hf as [Hf|Hf]; [done|congruence].
    + rewrite (walk_lines_fits _ _ _ _ _ _ _ _ _ _ _ _ _ _ Hb Hl) in Hf. discriminate.
    + destruct (walk_lines_row _ _ _ _ _ _ _ _ _ _ _ _ _ _ Hb Hl)
        as (x' & ops' & Hw & _ & _).
      destruct (walk_tokens_label_fits _ _ _ _ _ _ _ _ _ _ _ _ lab Hw Hti Hsp)
        as [Hnl Hfit].
      { rewrite <- Hlab. do 2 f_equal; lia. }
      destruct Hf as [Hf|Hf]; [done|]. unfold word_left in Hf. congruence.
Qed.

Lemma within_limits_render (bf cf tf : Font) (cm : gmap (Z * Z) str)
    (lyrics : str) (cfg : Config) :
  within_limits bf cf tf cm lyrics cfg ->
  exists cv, render_with_fonts bf cf tf cm lyrics cfg = Some cv.
Proof.
  intros (Hpw & Hh & Ht & Hl & Hlab).
  destruct (render_with_fonts bf cf tf cm lyrics cfg) as [cv|] eqn:Hr; [by exists cv|].
  exfalso. apply render_with_fonts_none in Hr.
  destruct Hr as [Hc|[Hc|[Hc|[Hc|[(t & Et & Hne & Hf)|[(li & line & El & Hf)|
    (li & ti & line & tok & lab & El & Eti & Hsp & Elab & Hf)]]]]]]; try lia.
  - destruct (Ht t Et Hne) as [Hnl Hfit]. destruct Hf as [Hf|Hf]; [|congruence].
    unfold no_line_feed in Hnl. rewrite List.Forall_forall in Hnl. exact (Hnl 10%N Hf eq_refl).
  - rewrite (Hl li line El) in Hf. discriminate.
  - destruct (Hlab li ti line tok lab El Eti Hsp Elab) as [Hnl Hfit].
    destruct Hf as [Hf|Hf]; [|congruence].
    unfold no_line_feed in Hnl. rewrite List.Forall_forall in Hnl. exact (Hnl 10%N Hf eq_refl).
Qed.

(** C7. Font fallback is silent: if loading any of the three preferred
    fonts fails, the render proceeds with [ImageFont.load_default()] as the
    lyric, chord and title font, and the missing font never makes it fail:
    whenever the inputs are within Pillow's limits for the default font it
    returns a canvas. *)
Theorem font_fallback_silent (truetype : FontRequest -> option Font)
    (load_default : Font) (lyrics : str) (cm : gmap (Z * Z) str) (cfg : Config) :
  truetype {| font_file := "DejaVuSansMono.ttf"; font_size := 28 |} = None \/
  truetype {| font_file := "DejaVuSansMono.ttf"; font_size := 24 |} = None \/
  truetype {| font_file := "DejaVuSans.ttf"; font_size := 36 |} = None ->
  render_chorded_lyrics truetype load_default lyrics cm cfg =
    render_with_fonts load_default load_default load_default cm lyrics cfg /\
  (within_limits load_default load_default load_default cm lyrics cfg ->
   exists cv, render_chorded_lyrics truetype load_default lyrics cm cfg = Some cv).
Proof.
  intros Hmiss.
  assert (Hsel : select_fonts truetype load_default =
                 (load_default, load_default, load_default)).
  { unfold select_fonts.
    destruct Hmiss as [-> | [-> | ->]];
      repeat match goal with |- context [match ?o with _ => _ end] =>
        destruct o end; done. }
  unfold render_chorded_lyrics. rewrite Hsel. split; [done|].
  apply within_limits_render.
Qed.

Lemma font_fallback_silent_witness :
  exists cv, render_chorded_lyrics fonts_missing bitmap_font (of_string "Guide me")
               ({[(0, 0) := of_string "C"]} : gmap (Z * Z) str) default_config
             = Some cv.
Proof.
  apply (font_fallback_silent fonts_missing bitmap_font (of_string "Guide me")
           ({[(0, 0) := of_string "C"]} : gmap (Z * Z) str) default_config);
    [left; reflexivity|].
  split; [vm_compute; split; intros H; discriminate H|].
  split; [vm_compute; split; intros H; discriminate H|].
  split.
  { intros t Ht _. discriminate Ht. }
  split.
  { intros li line Hl. destruct li as [|li]; [|destruct li; discriminate Hl].
    vm_compute in Hl. injection Hl as <-. reflexivity. }
  intros li ti line tok lab Hl Hti Hsp Hlab.
  destruct li as [|li]; [|destruct li; discriminate Hl].
  vm_compute in Hl. injection Hl as <-.
  destruct ti as [|[|[|ti]]]; try discriminate Hti.
  - injection Hti as <-. vm_compute in Hlab. injection Hlab as <-.
    split; [repeat constructor; discriminate|]. reflexivity.
  - injection Hti as <-. discriminate Hsp.
  - vm_compute in Hlab. discriminate Hlab.
Defined.

(** C10, as stated: the empty lyrics string does NOT always render: a
    title containing a line feed makes [draw.textlength] raise. *)
Lemma empty_lyrics_counterexample :
  render_chorded_lyrics fonts_present bitmap_font [] ∅
    {| title := Some (of_string "A" ++ [10%N] ++ of_string "B");
       page_width := 1500; margin := 60; line_spacing := 18; chord_gap := 8 |}
  = None.
Proof. reflexivity. Qed.

(** C10, amended: for the empty lyrics string, when [Image.new] accepts the
    size [page_width] by [2*margin + title block height] and a given title
    is single-line and passes the checks of [draw.text], the render succeeds
    with a canvas of exactly that size on which nothing is drawn but the
    title, when one is given. *)
Theorem empty_lyrics_canvas (truetype : FontRequest -> option Font)
    (load_default : Font) (cm : gmap (Z * Z) str) (cfg : Config)
    (bf cf tf : Font) :
  select_fonts truetype load_default = (bf, cf, tf) ->
  0 <= page_width cfg <= INT_MAX / 4 - 1 ->
  0 <= 2 * margin cfg + (if title_given (title cfg) then textheight tf + 20 else 0)
    <= INT_MAX ->
  (forall t, title cfg = Some t -> t <> [] ->
     no_line_feed t /\
     text_fits tf (inject_Z (Qfloor ((inject_Z (page_width cfg)
                                      - getlength tf t) / 2)%Q)) t = true) ->
  exists cv,
    render_chorded_lyrics truetype load_default [] cm cfg = Some cv /\
    cv_width cv = page_width cfg /\
    cv_height cv = 2 * margin cfg
                   + (if title_given (title cfg) then textheight tf + 20 else 0) /\
    cv_ops cv =
      match title cfg with
      | Some t =>
          if title_given (title cfg) then
            [DrawText (inject_Z (Qfloor ((inject_Z (page_width cfg)
                                          - getlength tf t) / 2)%Q))
                      (inject_Z (margin cfg)) t tf]
          else []
      | None => []
      end.
Proof.
  intros Hsel Hpw Hh Ht.
  unfold render_chorded_lyrics. rewrite Hsel.
  unfold render_with_fonts. cbn [splitlines splitlines_fuel length].
  destruct (image_new _ _) as [img|] eqn:Himg.
  2:{ exfalso. apply image_new_none in Himg. apply Himg. split; [done|]. lia. }
  apply image_new_some in Himg as [-> _]. cbn -[Qfloor text_fits]. unfold draw_title.
  destruct (title cfg) as [[|c t]|] eqn:Et; cbn -[Qfloor text_fits].
  - eexists. split; [reflexivity|]. simpl. split; [done|]. split; [lia|done].
  - destruct (Ht (c :: t) eq_refl ltac:(discriminate)) as [Hnl Hfit].
    pose proof Hfit as Hlen. apply andb_prop in Hlen as [Hlen _].
    rewrite (textlength_ok (c :: t) tf Hnl Hlen). cbn -[Qfloor text_fits].
    unfold draw_text. rewrite Hfit. cbn -[Qfloor text_fits].
    eexists. split; [reflexivity|]. simpl. split; [done|]. split; [lia|].
    reflexivity.
  - eexists. split; [reflexivity|]. simpl. split; [done|]. split; [lia|done].
Qed.

Lemma empty_lyrics_canvas_witness :
  exists cv,
    render_chorded_lyrics fonts_present bitmap_font [] ∅
      {| title := Some (of_string "Chord Chart"); page_width := 1500;
         margin := 60; line_spacing := 18; chord_gap := 8 |} = Some cv /\
    cv_width cv = 1500 /\
    cv_height cv = 2 * 60 + (textheight mono_font + 20) /\
    cv_ops cv =
      [DrawText (inject_Z (Qfloor ((inject_Z 1500
                                    - getlength mono_font (of_string "Chord Chart")) / 2)%Q))
                (inject_Z 60) (of_string "Chord Chart") mono_font].
Proof.
  apply (empty_lyrics_canvas fonts_present bitmap_font ∅
           {| title := Some (of_string "Chord Chart"); page_width := 1500;
              margin := 60; line_spacing := 18; chord_gap := 8 |}
           mono_font mono_font mono_font); try reflexivity.
  1-2: vm_compute; split; intros H; discriminate H.
  intros t Ht _. injection Ht as <-. split; [repeat constructor; discriminate|].
  reflexivity.
Defined.

(** The chord drawn for a Word slot with an entry in the chord map, with its
    exact position. *)
Lemma render_chord_drawn (truetype : FontRequest -> option Font)
    (load_default : Font) (lyrics : str) (cm : gmap (Z * Z) str) (cfg : Config)
    (bf cf tf : Font) (cv : Canvas) (li ti : nat) (line tok lab : str) :
  select_fonts truetype load_default = (bf, cf, tf) ->
  render_chorded_lyrics truetype load_default lyrics cm cfg = Some cv ->
  splitlines lyrics !! li = Some line ->
  tokenize_line line !! ti = Some tok ->
  py_str_isspace tok = false ->
  cm !! (Z.of_nat li, Z.of_nat ti) = Some lab ->
  In (DrawText (word_left bf cfg line ti
                + (getlength bf tok - getlength cf lab) / 2)%Q
               (inject_Z (margin cfg
                          + (if title_given (title cfg) then textheight tf + 20 else 0)
                          + Z.of_nat li * (textheight cf + chord_gap cfg
                                           + textheight bf + line_spacing cfg)))
               lab cf)
     (cv_ops cv).
Proof.
  intros Hsel Hr Hl Ht Hsp Hlab. unfold render_chorded_lyrics in Hr.
  rewrite Hsel in Hr.
  destruct (render_with_fonts_ops _ _ _ _ _ _ _ Hr)
    as (title_ops & body & _ & Hb & ->).
  destruct (walk_lines_row _ _ _ _ _ _ _ _ _ _ _ _ _ _ Hb Hl)
    as (x' & ops' & Hw & Hincl & _).
  apply in_or_app. right. apply Hincl. unfold word_left.
  eapply walk_tokens_chord; [exact Hw | exact Ht | exact Hsp |].
  rewrite <- Hlab. do 2 f_equal; lia.
Qed.

Lemma fold_cursor_additive (bf : Font)
    (Hadd : forall a b, (getlength bf (a ++ b) == getlength bf a + getlength bf b)%Q)
    (toks : list str) (x : Q) :
  (fold_left (cursor_after bf) toks x ==
   x + getlength bf (concat toks)
   + inject_Z (Z.of_nat (word_count toks))
     * getlength bf (of_string " "))%Q.
Proof.
  assert (H0 : (getlength bf [] == 0)%Q).
  { pose proof (Hadd [] []) as H. simpl in H.
    apply (Qplus_inj_l _ _ (getlength bf [])). rewrite <- H. ring. }
  unfold word_count. revert x. induction toks as [|t rest IH]; intros x; simpl.
  - rewrite H0. ring.
  - rewrite IH, Hadd. unfold cursor_after.
    destruct (py_str_isspace t); simpl.
    + ring.
    + rewrite Nat2Z.inj_succ. unfold Z.succ. rewrite inject_Z_plus. ring.
Qed.

(** X5. Every Line of the lyrics is drawn whole, in the lyric font, at
    [x = margin] and [y = margin + titleHeight + li * rowHeight + chordHeight
    + chordGap] (line 68), where [rowHeight] is [chordHeight + chordGap +
    lyricHeight + lineSpacing] (line 69). *)
Theorem lyric_line_drawn (truetype : FontRequest -> option Font)
    (load_default : Font) (lyrics : str) (cm : gmap (Z * Z) str) (cfg : Config)
    (bf cf tf : Font) (cv : Canvas) (li : nat) (line : str) :
  select_fonts truetype load_default = (bf, cf, tf) ->
  render_chorded_lyrics truetype load_default lyrics cm cfg = Some cv ->
  splitlines lyrics !! li = Some line ->
  In (DrawText (inject_Z (margin cfg))
               (inject_Z (margin cfg
                          + (if title_given (title cfg) then textheight tf + 20 else 0)
                          + Z.of_nat li * (textheight cf + chord_gap cfg
                                           + textheight bf + line_spacing cfg)
                          + textheight cf + chord_gap cfg))
               line bf)
     (cv_ops cv).
Proof.
  intros Hsel Hr Hl. unfold render_chorded_lyrics in Hr. rewrite Hsel in Hr.
  destruct (render_with_fonts_ops _ _ _ _ _ _ _ Hr)
    as (title_ops & body & _ & Hb & ->).
  destruct (walk_lines_row _ _ _ _ _ _ _ _ _ _ _ _ _ _ Hb Hl)
    as (_ & _ & _ & _ & Hline).
  apply in_or_app. right. exact Hline.
Qed.

Lemma lyric_line_drawn_witness :
  In (DrawText (inject_Z (margin default_config))
               (inject_Z (margin default_config
                          + (if title_given (title default_config)
                             then textheight mono_font + 20 else 0)
                          + Z.of_nat 0 * (textheight mono_font + chord_gap default_config
                                          + textheight mono_font
                                          + line_spacing default_config)
                          + textheight mono_font + chord_gap default_config))
               (of_string "Guide me") mono_font)
     [DrawText (176 # 2) 60 (of_string "C") mono_font;
      DrawText 60 94 (of_string "Guide me") mono_font].
Proof.
  apply (lyric_line_drawn fonts_present bitmap_font (of_string "Guide me")
           {[(0, 0) := of_string "C"]} default_config mono_font mono_font mono_font
           {| cv_width := 1500; cv_height := 198;
              cv_ops := [DrawText (176 # 2) 60 (of_string "C") mono_font;
                         DrawText 60 94 (of_string "Guide me") mono_font] |}
           0 (of_string "Guide me"));
    reflexivity.
Defined.

(** X6. A chord keyed to a Word slot is drawn at the top of its Line's row:
    [y = margin + titleHeight + li * rowHeight] (lines 47-53, 65 and 69),
    with [x] the centred offset over the word. *)
Theorem chord_row_position (truetype : FontRequest -> option Font)
    (load_default : Font) (lyrics : str) (cm : gmap (Z * Z) str) (cfg : Config)
    (bf cf tf : Font) (cv : Canvas) (li ti : nat) (line tok lab : str) :
  select_fonts truetype load_default = (bf, cf, tf) ->
  render_chorded_lyrics truetype load_default lyrics cm cfg = Some cv ->
  splitlines lyrics !! li = Some line ->
  tokenize_line line !! ti = Some tok ->
  py_str_isspace tok = false ->
  cm !! (Z.of_nat li, Z.of_nat ti) = Some lab ->
  In (DrawText (word_left bf cfg line ti
                + (getlength bf tok - getlength cf lab) / 2)%Q
               (inject_Z (margin cfg
                          + (if title_given (title cfg) then textheight tf + 20 else 0)
                          + Z.of_nat li * (textheight cf + chord_gap cfg
                                           + textheight bf + line_spacing cfg)))
               lab cf)
     (cv_ops cv).
Proof. exact (render_chord_drawn truetype load_default lyrics cm cfg bf cf tf cv li ti line tok lab). Qed.

Lemma chord_row_position_witness :
  In (DrawText (word_left mono_font default_config (of_string "Guide me") 0
                + (getlength mono_font (of_string "Guide")
                   - getlength mono_font (of_string "C")) / 2)%Q
               (inject_Z (margin default_config
                          + (if title_given (title default_config)
                             then textheight mono_font + 20 else 0)
                          + Z.of_nat 0 * (textheight mono_font + chord_gap default_config
                                          + textheight mono_font
                                          + line_spacing default_config)))
               (of_string "C") mono_font)
     [DrawText (176 # 2) 60 (of_string "C") mono_font;
      DrawText 60 94 (of_string "Guide me") mono_font].
Proof.
  apply (chord_row_position fonts_present bitmap_font (of_string "Guide me")
           {[(0, 0) := of_string "C"]} default_config mono_font mono_font mono_font
           {| cv_width := 1500; cv_height := 198;
              cv_ops := [DrawText (176 # 2) 60 (of_string "C") mono_font;
                         DrawText 60 94 (of_string "Guide me") mono_font] |}
           0 0 (of_string "Guide me") (of_string "Guide") (of_string "C"));
    reflexivity.
Defined.

(** X7. A non-empty title is the first thing drawn: in the title font, at
    [x = (page_width - titleWidth) // 2] and [y = margin] (lines 47-50). *)
Theorem title_drawn_first (truetype : FontRequest -> option Font)
    (load_default : Font) (lyrics : str) (cm : gmap (Z * Z) str) (cfg : Config)
    (bf cf tf : Font) (cv : Canvas) (t : str) :
  select_fonts truetype load_default = (bf, cf, tf) ->
  render_chorded_lyrics truetype load_default lyrics cm cfg = Some cv ->
  title cfg = Some t -> t <> [] ->
  exists rest,
    cv_ops cv =
      DrawText (inject_Z (Qfloor ((inject_Z (page_width cfg) - getlength tf t) / 2)%Q))
               (inject_Z (margin cfg)) t tf :: rest.
Proof.
  intros Hsel Hr Ht Hne. unfold render_chorded_lyrics in Hr. rewrite Hsel in Hr.
  destruct (render_with_fonts_ops _ _ _ _ _ _ _ Hr)
    as (title_ops & body & Hd & _ & ->).
  destruct (draw_title_ops _ _ _ _ _ Hd) as [_ [[Hg _]|(t' & Ht' & _ & ->)]].
  - rewrite Ht in Hg. destruct t; done.
  - rewrite Ht in Ht'. injection Ht' as <-. by exists body.
Qed.

Lemma title_drawn_first_witness :
  let cfg := {| title := Some (of_string "Chord Chart"); page_width := 1500;
                margin := 60; line_spacing := 18; chord_gap := 8 |} in
  exists cv,
    render_chorded_lyrics fonts_present bitmap_font (of_string "Guide me")
      {[(0, 0) := of_string "C"]} cfg = Some cv /\
    exists rest,
      cv_ops cv =
        DrawText (inject_Z (Qfloor ((inject_Z (page_width cfg)
                                      - getlength mono_font (of_string "Chord Chart")) / 2)%Q))
                 (inject_Z (margin cfg)) (of_string "Chord Chart") mono_font :: rest.
Proof.
  intros cfg. eexists. split; [reflexivity|].
  apply (title_drawn_first fonts_present bitmap_font (of_string "Guide me")
           {[(0, 0) := of_string "C"]} cfg mono_font mono_font mono_font);
    [reflexivity | reflexivity | reflexivity | discriminate].
Defined.

(** X8. The render draws nothing but: the non-empty title, centred at
    [y = margin]; each Line whole at its row; and, for each Word slot that
    has an entry in the chord map, that entry's label centred over the word
    at the top of the row. *)
Theorem render_draws_only (truetype : FontRequest -> option Font)
    (load_default : Font) (lyrics : str) (cm : gmap (Z * Z) str) (cfg : Config)
    (bf cf tf : Font) (cv : Canvas) (o : DrawOp) :
  select_fonts truetype load_default = (bf, cf, tf) ->
  render_chorded_lyrics truetype load_default lyrics cm cfg = Some cv ->
  In o (cv_ops cv) ->
  let title_h := if title_given (title cfg) then textheight tf + 20 else 0 in
  let row_h := textheight cf + chord_gap cfg + textheight bf + line_spacing cfg in
  (exists t, title cfg = Some t /\ t <> [] /\
     o = DrawText (inject_Z (Qfloor ((inject_Z (page_width cfg)
                                       - getlength tf t) / 2)%Q))
                  (inject_Z (margin cfg)) t tf) \/
  (exists li line, splitlines lyrics !! li = Some line /\
     o = DrawText (inject_Z (margin cfg))
                  (inject_Z (margin cfg + title_h + Z.of_nat li * row_h
                             + textheight cf + chord_gap cfg)) line bf) \/
  (exists li ti line tok lab, splitlines lyrics !! li = Some line /\
     tokenize_line line !! ti = Some tok /\ py_str_isspace tok = false /\
     cm !! (Z.of_nat li, Z.of_nat ti) = Some lab /\
     o = DrawText (word_left bf cfg line ti
                   + (getlength bf tok - getlength cf lab) / 2)%Q
                  (inject_Z (margin cfg + title_h + Z.of_nat li * row_h)) lab cf).
Proof.
  intros Hsel Hr Ho title_h row_h. unfold render_chorded_lyrics in Hr.
  rewrite Hsel in Hr.
  destruct (render_with_fonts_ops _ _ _ _ _ _ _ Hr)
    as (title_ops & body & Hd & Hb & Hops).
  rewrite Hops in Ho. apply in_app_or in Ho as [Ho|Ho].
  - left. destruct (draw_title_ops _ _ _ _ _ Hd) as [_ [[_ ->]|(t & Ht & Hg & ->)]];
      [done|].
    destruct Ho as [<-|[]]. exists t. split; [done|]. split; [|done].
    rewrite Ht in Hg. by destruct t.
  - right. destruct (walk_lines_ops _ _ _ _ _ _ _ _ _ _ _ _ _ Hb Ho)
      as (li & line & Hl & [->|(ti & tok & lab & Ht & Hsp & Hlab & ->)]).
    + left. exists li, line. split; [done|]. do 3 f_equal; unfold title_h, row_h; lia.
    + right. exists li, ti, line, tok, lab. split; [done|]. split; [done|].
      split; [done|]. split.
      * rewrite <- Hlab. do 2 f_equal; lia.
      * unfold word_left. do 2 f_equal; unfold title_h, row_h; lia.
Qed.

Lemma render_draws_only_witness :
  let title_h := if title_given (title default_config)
                 then textheight mono_font + 20 else 0 in
  let row_h := textheight mono_font + chord_gap default_config
               + textheight mono_font + line_spacing default_config in
  let o := DrawText 60 94 (of_string "Guide me") mono_font in
  (exists t, title default_config = Some t /\ t <> [] /\
     o = DrawText (inject_Z (Qfloor ((inject_Z (page_width default_config)
                                       - getlength mono_font t) / 2)%Q))
                  (inject_Z (margin default_config)) t mono_font) \/
  (exists li line, splitlines (of_string "Guide me") !! li = Some line /\
     o = DrawText (inject_Z (margin default_config))
                  (inject_Z (margin default_config + title_h + Z.of_nat li * row_h
                             + textheight mono_font + chord_gap default_config))
                  line mono_font) \/
  (exists li ti line tok lab, splitlines (of_string "Guide me") !! li = Some line /\
     tokenize_line line !! ti = Some tok /\ py_str_isspace tok = false /\
     ({[(0, 0) := of_string "C"]} : gmap (Z * Z) str) !! (Z.of_nat li, Z.of_nat ti)
       = Some lab /\
     o = DrawText (word_left mono_font default_config line ti
                   + (getlength mono_font tok - getlength mono_font lab) / 2)%Q
                  (inject_Z (margin default_config + title_h + Z.of_nat li * row_h))
                  lab mono_font).
Proof.
  apply (render_draws_only fonts_present bitmap_font (of_string "Guide me")
           {[(0, 0) := of_string "C"]} default_config mono_font mono_font mono_font
           {| cv_width := 1500; cv_height := 198;
              cv_ops := [DrawText (176 # 2) 60 (of_string "C") mono_font;
                         DrawText 60 94 (of_string "Guide me") mono_font] |});
    [reflexivity | reflexivity | simpl; auto].
Defined.

(** X9. The render fails (returns no image) exactly when one of Pillow's
    checks raises: [Image.new] gets a negative size or one over its limits
    (page width above [INT_MAX / 4 - 1], total height above [INT_MAX]), or
    [draw.textlength] or [draw.text] raises on the title, on a Line, or on a
    chord label keyed to a Word slot of the lyrics: multiline text where
    [textlength] measures it, text over [MAX_STRING_LENGTH] characters, or a
    mask over the decompression-bomb limit. Labels at other keys are never
    measured or drawn. *)
Theorem render_fails_iff (truetype : FontRequest -> option Font)
    (load_default : Font) (lyrics : str) (cm : gmap (Z * Z) str) (cfg : Config)
    (bf cf tf : Font) :
  select_fonts truetype load_default = (bf, cf, tf) ->
  render_chorded_lyrics truetype load_default lyrics cm cfg = None <->
  page_width cfg < 0 \/ INT_MAX / 4 - 1 < page_width cfg \/
  margin cfg + (if title_given (title cfg) then textheight tf + 20 else 0)
    + (textheight bf + textheight cf + chord_gap cfg + line_spacing cfg)
      * Z.of_nat (length (splitlines lyrics))
    + margin cfg < 0 \/
  INT_MAX < margin cfg + (if title_given (title cfg) then textheight tf + 20 else 0)
    + (textheight bf + textheight cf + chord_gap cfg + line_spacing cfg)
      * Z.of_nat (length (splitlines lyrics))
    + margin cfg \/
  (exists t, title cfg = Some t /\ t <> [] /\
     (In 10%N t \/
      text_fits tf (inject_Z (Qfloor ((inject_Z (page_width cfg)
                                       - getlength tf t) / 2)%Q)) t = false)) \/
  (exists li line, splitlines lyrics !! li = Some line /\
     text_fits bf (inject_Z (margin cfg)) line = false) \/
  (exists li ti line tok lab, splitlines lyrics !! li = Some line /\
     tokenize_line line !! ti = Some tok /\ py_str_isspace tok = false /\
     cm !! (Z.of_nat li, Z.of_nat ti) = Some lab /\
     (In 10%N lab \/
      text_fits cf (word_left bf cfg line ti
                    + (getlength bf tok - getlength cf lab) / 2)%Q lab = false)).
Proof.
  intros Hsel. unfold render_chorded_lyrics. rewrite Hsel.
  apply render_with_fonts_none.
Qed.

Lemma render_fails_iff_witness :
  render_chorded_lyrics fonts_present bitmap_font (of_string "Guide me")
    {[(0, 0) := of_string "C" ++ [10%N] ++ of_string "G"]} default_config = None.
Proof.
  apply (render_fails_iff fonts_present bitmap_font (of_string "Guide me")
           {[(0, 0) := of_string "C" ++ [10%N] ++ of_string "G"]} default_config
           mono_font mono_font mono_font); [reflexivity|].
  do 6 right. exists 0%nat, 0%nat, (of_string "Guide me"), (of_string "Guide"),
    (of_string "C" ++ [10%N] ++ of_string "G").
  split; [reflexivity|]. split; [reflexivity|]. split; [reflexivity|].
  split; [reflexivity|]. left. simpl; auto.
Defined.

(** X10. Chords drift right along a Line. For a lyric font whose advance
    widths add up ([getlength (a ++ b) = getlength a + getlength b], as for
    a monospace face without kerning), the cursor at token [ti] (where its
    chord is centred) lies to the right of that token's left edge in the
    drawn Line, [margin + getlength (tokens before ti)], by exactly one space
    width per Word token before it (lines 59 and 66 against line 68). *)
Theorem chord_cursor_drift (bf : Font) (cfg : Config) (line : str) (ti : nat) :
  (forall a b, getlength bf (a ++ b) == getlength bf a + getlength bf b)%Q ->
  (word_left bf cfg line ti ==
   inject_Z (margin cfg) + getlength bf (concat (take ti (tokenize_line line)))
   + inject_Z (Z.of_nat (word_count (take ti (tokenize_line line))))
     * getlength bf (of_string " "))%Q.
Proof. intros Hadd. unfold word_left. apply fold_cursor_additive, Hadd. Qed.

Lemma chord_cursor_drift_witness :
  (word_left mono_font default_config (of_string "Guide me") 2 ==
   inject_Z (margin default_config)
   + getlength mono_font (concat (take 2 (tokenize_line (of_string "Guide me"))))
   + inject_Z (Z.of_nat (word_count (take 2 (tokenize_line (of_string "Guide me")))))
     * getlength mono_font (of_string " "))%Q.
Proof.
  apply chord_cursor_drift. intros a b. simpl.
  rewrite length_app, Nat2Z.inj_add, Z.mul_add_distr_l, inject_Z_plus.
  reflexivity.
Defined.

(** X11. Every chord collected by the Render button (lines 97-108) is drawn
    in the image it then renders (line 109), centred over its word at the
    top of the word's row, whenever that render succeeds. *)
Theorem collected_chords_drawn (widget : str -> option str)
    (truetype : FontRequest -> option Font) (load_default : Font)
    (lyrics : str) (chords : gmap (Z * Z) str) (cfg : Config)
    (bf cf tf : Font) (cv : Canvas) (li ti : nat) (line tok : str) :
  select_fonts truetype load_default = (bf, cf, tf) ->
  render_chorded_lyrics truetype load_default lyrics
    (collect_chord_map widget lyrics chords).1 cfg = Some cv ->
  splitlines lyrics !! li = Some line ->
  tokenize_line line !! ti = Some tok ->
  py_str_isspace tok = false ->
  py_strip (default [] (widget (key_name li ti))) <> [] ->
  let v := py_strip (default [] (widget (key_name li ti))) in
  In (DrawText (word_left bf cfg line ti
                + (getlength bf tok - getlength cf v) / 2)%Q
               (inject_Z (margin cfg
                          + (if title_given (title cfg) then textheight tf + 20 else 0)
                          + Z.of_nat li * (textheight cf + chord_gap cfg
                                           + textheight bf + line_spacing cfg)))
               v cf)
     (cv_ops cv).
Proof.
  intros Hsel Hr Hl Ht Hsp Hne v.
  apply (render_chord_drawn _ _ _ _ _ _ _ _ _ _ _ _ _ _ Hsel Hr Hl Ht Hsp).
  apply collect_chord_map_lookup. exists li, ti, line, tok.
  split; [done|]. split; [done|]. split; [done|].
  by apply tok_entry_some.
Qed.

Lemma collected_chords_drawn_witness :
  let widget := fun k => if decide (k = key_name 0 2) then Some (of_string " Am")
                         else None in
  exists cv,
    render_chorded_lyrics fonts_present bitmap_font (of_string "Guide me")
      (collect_chord_map widget (of_string "Guide me") ∅).1 default_config = Some cv /\
    In (DrawText (word_left mono_font default_config (of_string "Guide me") 2
                  + (getlength mono_font (of_string "me")
                     - getlength mono_font (py_strip (default [] (widget (key_name 0 2)))))
                    / 2)%Q
                 (inject_Z (margin default_config
                            + (if title_given (title default_config)
                               then textheight mono_font + 20 else 0)
                            + Z.of_nat 0 * (textheight mono_font + chord_gap default_config
                                            + textheight mono_font
                                            + line_spacing default_config)))
                 (py_strip (default [] (widget (key_name 0 2)))) mono_font)
       (cv_ops cv).
Proof.
  intros widget. eexists. split; [reflexivity|].
  apply (collected_chords_drawn widget fonts_present bitmap_font
           (of_string "Guide me") ∅ default_config mono_font mono_font mono_font
           _ 0 2 (of_string "Guide me") (of_string "me"));
    [reflexivity | reflexivity | reflexivity | reflexivity | reflexivity |
     vm_compute; discriminate].
Defined.

(* ------------------------------------------------------------------ *)
(** ** What [splitlines] keeps *)

Lemma filter_all_kept (p : N -> bool) (l : str) :
  Forall (fun x => p x = true) l -> List.filter p l = l.
Proof. induction 1 as [|x l Hx _ IH]; [done|]. simpl. by rewrite Hx, IH. Qed.

Lemma filter_skip_break (c : N) (r : str) :
  py_islinebreak c = true ->
  List.filter (fun x => negb (py_islinebreak x)) (c :: r) =
  List.filter (fun x => negb (py_islinebreak x)) (skip_break (c :: r)).
Proof.
  intros Hc. simpl. rewrite Hc. simpl.
  destruct (c =? 13)%N; [|done].
  destruct r as [|d r']; [done|].
  destruct (d =? 10)%N eqn:Hd; [|done].
  apply N.eqb_eq in Hd as ->. done.
Qed.

Lemma splitlines_fuel_concat (f : nat) (s : str) :
  (length s < f)%nat ->
  concat (splitlines_fuel f s) = List.filter (fun c => negb (py_islinebreak c)) s.
Proof.
  revert s. induction f as [|f IH]; intros s Hlen; [lia|].
  destruct s as [|x s0]; [done|].
  cbn [splitlines_fuel].
  destruct (span_run (fun c => negb (py_islinebreak c)) (x :: s0))
    as [line rest] eqn:E.
  destruct (span_run_spec _ _ _ _ E) as (Happ & Hall & Hstop).
  assert (Hl : (length (skip_break rest) < f)%nat).
  { assert (HL : length (line ++ rest) = S (length s0)) by (rewrite Happ; done).
    rewrite length_app in HL. simpl in Hlen.
    destruct rest as [|c r]; [simpl; lia|].
    pose proof (skip_break_shorter c r). simpl in HL. lia. }
  cbn [concat]. rewrite (IH _ Hl), <- Happ, List.filter_app, (filter_all_kept _ line Hall).
  f_equal. destruct rest as [|c r]; [done|].
  symmetry. apply filter_skip_break.
  specialize (Hstop c r eq_refl). by destruct (py_islinebreak c).
Qed.

(** X12. [lyrics.splitlines()] (lines 25 and 80) drops exactly the line
    break characters: joined back together, the Lines are the lyrics with
    every line break character removed, so no Line contains one and no
    other character is lost or reordered. *)
Theorem splitlines_concat (s : str) :
  concat (splitlines s) = List.filter (fun c => negb (py_islinebreak c)) s.
Proof. apply splitlines_fuel_concat. lia. Qed.

(* ------------------------------------------------------------------ *)
(** ** The form's text fields *)

Lemma word_count_space (t : str) (l : list str) :
  py_str_isspace t = true -> word_count (t :: l) = word_count l.
Proof. intros H. unfold word_count. simpl. by rewrite H. Qed.

Lemma word_count_word (t : str) (l : list str) :
  py_str_isspace t = false -> word_count (t :: l) = S (word_count l).
Proof. intros H. unfold word_count. simpl. by rewrite H. Qed.

Lemma line_fields_spec (chords : gmap (Z * Z) str) (li ncols : nat)
    (toks : list str) (ti0 c0 : nat) :
  (0 < ncols)%nat ->
  exists fs, line_fields chords li ncols ti0 c0 toks = Some fs /\
  forall f, In f fs <->
    exists j tok, toks !! j = Some tok /\ py_str_isspace tok = false /\
      f = {| fld_col := Nat.modulo (c0 + word_count (take j toks)) ncols;
             fld_label := [39%N] ++ tok ++ [39%N];
             fld_key := key_name li (ti0 + j);
             fld_value := default [] (chords !! (Z.of_nat li, Z.of_nat (ti0 + j))) |}.
Proof.
  intros Hn. revert ti0 c0. induction toks as [|t rest IH]; intros ti0 c0.
  { exists []. split; [done|]. intros f. split; [done|].
    intros (j & tok & Hj & _). done. }
  destruct (py_str_isspace t) eqn:Hsp.
  - destruct (IH (S ti0) c0) as (fs & Hfs & Hin).
    exists fs. split; [simpl; by rewrite Hsp|]. intros f. rewrite Hin. split.
    + intros (j & tok & Hj & Hs & ->). exists (S j), tok.
      split; [done|]. split; [done|]. cbn [take].
      rewrite (word_count_space _ _ Hsp).
      replace (ti0 + S j)%nat with (S ti0 + j)%nat by lia. reflexivity.
    + intros ([|j] & tok & Hj & Hs & ->); simpl in Hj.
      * injection Hj as ->. congruence.
      * exists j, tok. split; [done|]. split; [done|]. cbn [take].
        rewrite (word_count_space _ _ Hsp).
        replace (ti0 + S j)%nat with (S ti0 + j)%nat by lia. reflexivity.
  - destruct ncols as [|n]; [lia|].
    destruct (IH (S ti0) (S c0)) as (fs & Hfs & Hin).
    eexists. split.
    + cbn [line_fields]. rewrite Hsp.
      replace (Nat.ltb (Nat.modulo c0 (S n)) (S n)) with true
        by (symmetry; apply Nat.ltb_lt, Nat.mod_upper_bound; lia).
      rewrite Hfs. reflexivity.
    + assert (H0 : forall l : list str, (c0 + word_count (take 0 l))%nat = c0)
        by (intros l; unfold word_count; simpl; lia).
      intros f. simpl. rewrite Hin. split.
      * intros [<-|(j & tok & Hj & Hs & ->)].
        -- exists 0%nat, t. split; [done|]. split; [done|].
           rewrite H0, Nat.add_0_r. reflexivity.
        -- exists (S j), tok. split; [done|]. split; [done|]. cbn [take].
           rewrite (word_count_word _ _ Hsp).
           replace (ti0 + S j)%nat with (S ti0 + j)%nat by lia.
           replace (c0 + S (word_count (take j rest)))%nat
             with (S c0 + word_count (take j rest))%nat by lia.
           reflexivity.
      * intros ([|j] & tok & Hj & Hs & ->); simpl in Hj.
        -- injection Hj as ->. left. rewrite H0, Nat.add_0_r. reflexivity.
        -- right. exists j, tok. split; [done|]. split; [done|]. cbn [take].
           rewrite (word_count_word _ _ Hsp).
           replace (ti0 + S j)%nat with (S ti0 + j)%nat by lia.
           replace (c0 + S (word_count (take j rest)))%nat
             with (S c0 + word_count (take j rest))%nat by lia.
           reflexivity.
Qed.

Lemma form_lines_spec (chords : gmap (Z * Z) str) (lines : list str) (li0 : nat) :
  exists fs, form_lines chords li0 lines = Some fs /\
  forall f, In f fs <->
    exists k line j tok, lines !! k = Some line /\
      tokenize_line line !! j = Some tok /\ py_str_isspace tok = false /\
      f = {| fld_col := Nat.modulo (word_count (take j (tokenize_line line)))
                                   (n_cols (tokenize_line line));
             fld_label := [39%N] ++ tok ++ [39%N];
             fld_key := key_name (li0 + k) j;
             fld_value := default [] (chords !! (Z.of_nat (li0 + k), Z.of_nat j)) |}.
Proof.
  revert li0. induction lines as [|l rest IH]; intros li0.
  { exists []. split; [done|]. intros f. split; [done|].
    intros (k & line & j & tok & Hk & _). done. }
  destruct (line_fields_spec chords li0 (n_cols (tokenize_line l)) (tokenize_line l) 0 0)
    as (fs1 & Hfs1 & Hin1); [unfold n_cols; lia|].
  destruct (IH (S li0)) as (fs2 & Hfs2 & Hin2).
  exists (fs1 ++ fs2). split; [simpl; by rewrite Hfs1, Hfs2|].
  intros f. rewrite in_app_iff, Hin1, Hin2. split.
  - intros [(j & tok & Hj & Hs & ->)|(k & line & j & tok & Hk & Hj & Hs & ->)].
    + exists 0%nat, l, j, tok. split; [done|]. split; [done|]. split; [done|].
      rewrite Nat.add_0_r. done.
    + exists (S k), line, j, tok. split; [done|]. split; [done|]. split; [done|].
      replace (li0 + S k)%nat with (S li0 + k)%nat by lia. done.
  - intros ([|k] & line & j & tok & Hk & Hj & Hs & ->); simpl in Hk.
    + injection Hk as <-. left. exists j, tok. split; [done|]. split; [done|].
      rewrite Nat.add_0_r. done.
    + right. exists k, line, j, tok. split; [done|]. split; [done|]. split; [done|].
      replace (li0 + S k)%nat with (S li0 + k)%nat by lia. done.
Qed.

Lemma key_name_inj (li ti li' ti' : nat) :
  key_name li ti = key_name li' ti' -> li = li' /\ ti = ti'.
Proof.
  unfold key_name, py_str_int. cbn [of_string app]. intros H.
  injection H as H.
  destruct (split_at_underscore _ _ _ _ (uint_digits_no_underscore _)
              (uint_digits_no_underscore _) H) as [H1 H2].
  injection H2 as H2.
  split; apply DecimalNat.Unsigned.to_uint_inj, uint_digits_inj; assumption.
Qed.

(** The keys of a Line's fields name that Line and token indices from
    [ti0] on, each once. *)
Lemma line_fields_keys (chords : gmap (Z * Z) str) (li ncols : nat)
    (toks : list str) (ti0 c0 : nat) (fs : list Field) :
  line_fields chords li ncols ti0 c0 toks = Some fs ->
  Forall (fun k => exists j, (ti0 <= j)%nat /\ k = key_name li j) (map fld_key fs) /\
  NoDup (map fld_key fs).
Proof.
  revert ti0 c0 fs. induction toks as [|t rest IH]; intros ti0 c0 fs Hfs.
  { injection Hfs as <-. split; constructor. }
  simpl in Hfs. destruct (py_str_isspace t).
  - destruct (IH _ _ _ Hfs) as [Hall Hnd]. split; [|done].
    eapply Forall_impl; [exact Hall|]. intros k (j & Hj & ->). exists j. split; [lia|done].
  - destruct ncols as [|n]; [discriminate|].
    destruct (Nat.ltb _ _); [|discriminate].
    destruct (line_fields chords li (S n) (S ti0) (S c0) rest) as [fs'|] eqn:Hr;
      [|discriminate].
    injection Hfs as <-. destruct (IH _ _ _ Hr) as [Hall Hnd]. simpl. split.
    + constructor; [by exists ti0|].
      eapply Forall_impl; [exact Hall|]. intros k (j & Hj & ->). exists j. split; [lia|done].
    + constructor; [|done]. intros Hin. apply list_elem_of_In in Hin.
      rewrite List.Forall_forall in Hall. destruct (Hall _ Hin) as (j & Hj & Hk).
      apply key_name_inj in Hk as [_ ->]. lia.
Qed.

(** The keys of the fields of [lines], numbered from [li0], name Lines
    from [li0] on, each key once. *)
Lemma form_lines_keys (chords : gmap (Z * Z) str) (lines : list str) (li0 : nat)
    (fs : list Field) :
  form_lines chords li0 lines = Some fs ->
  Forall (fun k => exists i j, (li0 <= i)%nat /\ k = key_name i j) (map fld_key fs) /\
  NoDup (map fld_key fs).
Proof.
  revert li0 fs. induction lines as [|l rest IH]; intros li0 fs Hfs.
  { injection Hfs as <-. split; constructor. }
  simpl in Hfs.
  destruct (line_fields chords li0 _ 0 0 (tokenize_line l)) as [fs1|] eqn:H1;
    [|discriminate]. simpl in Hfs.
  destruct (form_lines chords (S li0) rest) as [fs2|] eqn:H2; [|discriminate].
  injection Hfs as <-.
  destruct (line_fields_keys _ _ _ _ _ _ _ H1) as [Hall1 Hnd1].
  destruct (IH _ _ H2) as [Hall2 Hnd2].
  rewrite map_app. split.
  - apply Forall_app. split.
    + eapply Forall_impl; [exact Hall1|]. intros k (j & _ & ->). by exists li0, j.
    + eapply Forall_impl; [exact Hall2|]. intros k (i & j & Hi & ->).
      exists i, j. split; [lia|done].
  - apply NoDup_app. split; [done|]. split; [|done].
    intros k Hk1 Hk2. apply list_elem_of_In in Hk1, Hk2.
    rewrite List.Forall_forall in Hall1, Hall2.
    destruct (Hall1 _ Hk1) as (j & _ & ->).
    destruct (Hall2 _ Hk2) as (i & j' & Hi & Hk).
    apply key_name_inj in Hk as [-> _]. lia.
Qed.

(** X13. The chord form (lines 82-92) never fails, and it shows exactly one
    text field per Word slot [(li, ti)] of the lyrics (no two of its fields
    share a key, and the fields are exactly these): labelled with the
    word in single quotes, with key [f"li{li}_ti{ti}"], pre-filled with the
    chord stored for that slot (or [""]), placed in column [k mod ncols] of
    its Line, where [k] counts the Words before it and [ncols =
    min(8, max(1, len(tokens)))]. *)
Theorem form_fields_spec (chords : gmap (Z * Z) str) (lyrics : str) :
  exists fs, form_fields chords lyrics = Some fs /\
  NoDup (map fld_key fs) /\
  forall f, In f fs <->
    exists li ti line tok, splitlines lyrics !! li = Some line /\
      tokenize_line line !! ti = Some tok /\ py_str_isspace tok = false /\
      f = {| fld_col := Nat.modulo (word_count (take ti (tokenize_line line)))
                                   (n_cols (tokenize_line line));
             fld_label := [39%N] ++ tok ++ [39%N];
             fld_key := key_name li ti;
             fld_value := default [] (chords !! (Z.of_nat li, Z.of_nat ti)) |}.
Proof.
  destruct (form_lines_spec chords (splitlines lyrics) 0) as (fs & Hfs & Hin).
  exists fs. split; [exact Hfs|].
  split; [exact (proj2 (form_lines_keys _ _ _ _ Hfs))|].
  intros f. rewrite Hin. split.
  - intros (k & line & j & tok & H). by exists k, j, line, tok.
  - intros (li & ti & line & tok & H). by exists li, line, ti, tok.
Qed.
